(** * Units checker and parameter-to-mtag propagation of smatch

    A shallow embedding of [smatch_units.c] and of the companion checker that
    records which parameters get stored into tagged memory
    ([register_param_to_mtag_data]).  The host analysis engine (expression
    trees, the path environment, the SQL cache) is not part of these two
    files; what the checkers ask of it is collected in the [Host] interface
    below and in the [world] record that is threaded through the hooks. *)

From stdpp Require Import gmap strings list pretty.
From Stdlib Require Import ZArith Ascii.

Set Warnings "-register-all".

(** ** Expression trees as the checkers see them *)

Record position := Position { pos_stream : nat; pos_line : nat; pos_col : nat }.

(** Multi-character operators of the tokenizer; single-character operators
    are their character code in C and are kept as characters here. *)
Inductive special_token :=
  | SPECIAL_LEFTSHIFT | SPECIAL_RIGHTSHIFT
  | SPECIAL_SHL_ASSIGN | SPECIAL_SHR_ASSIGN
  | SPECIAL_MUL_ASSIGN | SPECIAL_DIV_ASSIGN
  | SPECIAL_EQUAL | SPECIAL_NOTEQUAL | SPECIAL_LTE | SPECIAL_GTE.

Inductive op_t :=
  | OP (c : ascii)
  | SPECIAL (s : special_token).

Inductive sym_kind :=
  | SYM_BASETYPE | SYM_NODE | SYM_PTR | SYM_FN | SYM_ARRAY | SYM_STRUCT | SYM_UNION.

Record symbol := Symbol { sym_type : sym_kind; sym_ident : string; sym_id : nat }.

(** [struct expression]: one constructor per [expr->type] tag, carrying
    [expr->pos] and the members of the union that are valid for that tag. *)
Inductive expression :=
  | EXPR_VALUE (pos : position) (value : Z)
  | EXPR_SYMBOL (pos : position) (sym : symbol)
  | EXPR_BINOP (pos : position) (op : op_t) (left right : expression)
  | EXPR_COMPARE (pos : position) (op : op_t) (left right : expression)
  | EXPR_ASSIGNMENT (pos : position) (op : op_t) (left right : expression)
  | EXPR_PREOP (pos : position) (op : op_t) (unop : expression)
  | EXPR_CAST (pos : position) (cast_expression : expression)
  | EXPR_DEREF (pos : position) (deref : expression) (member : string)
  | EXPR_SIZEOF (pos : position)
  | EXPR_PTRSIZEOF (pos : position)
  | EXPR_CALL (pos : position) (fn : expression) (args : list expression).

Definition expr_pos (expr : expression) : position :=
  match expr with
  | EXPR_VALUE p _ | EXPR_SYMBOL p _ | EXPR_BINOP p _ _ _
  | EXPR_COMPARE p _ _ _ | EXPR_ASSIGNMENT p _ _ _ | EXPR_PREOP p _ _
  | EXPR_CAST p _ | EXPR_DEREF p _ _ | EXPR_SIZEOF p | EXPR_PTRSIZEOF p
  | EXPR_CALL p _ _ => p
  end.

Fixpoint expr_size (expr : expression) : nat :=
  match expr with
  | EXPR_VALUE _ _ | EXPR_SYMBOL _ _ | EXPR_SIZEOF _ | EXPR_PTRSIZEOF _ => 1
  | EXPR_BINOP _ _ l r | EXPR_COMPARE _ _ l r | EXPR_ASSIGNMENT _ _ l r =>
      S (expr_size l + expr_size r)
  | EXPR_PREOP _ _ e | EXPR_CAST _ e | EXPR_DEREF _ e _ => S (expr_size e)
  | EXPR_CALL _ f a => S (expr_size f + foldr (λ e n, expr_size e + n) 0 a)
  end.

Inductive stmt_type :=
  | STMT_NONE | STMT_DECLARATION | STMT_EXPRESSION | STMT_COMPOUND | STMT_IF
  | STMT_RETURN | STMT_ITERATOR | STMT_SWITCH | STMT_GOTO.

Global Instance position_eq_dec : EqDecision position.
Proof. solve_decision. Defined.
Global Instance special_token_eq_dec : EqDecision special_token.
Proof. solve_decision. Defined.
Global Instance op_t_eq_dec : EqDecision op_t.
Proof. solve_decision. Defined.
Global Instance sym_kind_eq_dec : EqDecision sym_kind.
Proof. solve_decision. Defined.
Global Instance stmt_type_eq_dec : EqDecision stmt_type.
Proof. solve_decision. Defined.

(** Keys of the path environment: [get_state(owner, name, sym)] with the
    owner fixed to the checker; the symbol is identified by [sym_id]. *)
Definition tracker : Type := string * nat.

(** ** What the checkers ask of the host

    Every field is a function of the host engine that the two source files
    call but do not define.  [strip_expr] may return [NULL]; the one law
    says that it never builds a bigger expression than it was given (it
    removes parentheses and casts), which is what makes the recursion of
    [get_units] through it terminate. *)
Class Host := {
  strip_expr : expression → option expression;
  strip_expr_size : ∀ e e', strip_expr e = Some e' → expr_size e' ≤ expr_size e;
  pos_ident : position → option string;
  get_macro_name : position → option string;
  get_implied_value : expression → option Z;
  get_type : expression → option symbol;
  get_member_name : expression → option string;
  sym_name_is : string → expression → bool;
  expr_to_var_sym : expression → option tracker;
  expr_to_str : expression → string;
  show_special : op_t → string;
  UNITS : Z;
  get_base_file_id : Z;
  get_function : string;
  fn_static : Z;
}.

(** The merge of the three-valued state lattice in the words of the design:
    if either state is Undefined, the other; if the two are equal, that
    state; else Merged.  The merge hooks of the two checkers are compared
    with it below. *)
Definition lattice_merge {A} `{EqDecision A} (undefined merged : A) (s1 s2 : A) : A :=
  if bool_decide (s1 = undefined) then s2
  else if bool_decide (s2 = undefined) then s1
  else if bool_decide (s1 = s2) then s1
  else merged.

(** [strcmp(a, b) == 0] on NUL-terminated strings. *)
Definition streq (a b : string) : bool := bool_decide (a = b).

(** Rows of the [type_info] and [return_implies] tables, with the columns in
    the order of the format strings that insert them. *)
Record type_info_row := TypeInfo {
  ti_file : Z; ti_type : Z; ti_key : string; ti_value : string }.

Record return_implies_row := ReturnImplies {
  ri_file : Z; ri_function : string; ri_call_id : Z; ri_static : Z;
  ri_type : Z; ri_parameter : Z; ri_key : string; ri_value : string }.

Global Instance type_info_row_eq_dec : EqDecision type_info_row.
Proof. solve_decision. Defined.
Global Instance return_implies_row_eq_dec : EqDecision return_implies_row.
Proof. solve_decision. Defined.

Module Units.

(** [STATE(x)] declares a state object whose name is ["x"]; [undefined] and
    [merged] are the two states of the host.  States are compared by
    address in C, which is equality of constructors here. *)
Inductive smatch_state :=
  | undefined | merged
  | bit | byte | array_size | longs | page | msec | jiffy.

Global Instance smatch_state_eq_dec : EqDecision smatch_state.
Proof. solve_decision. Defined.

Definition name (s : smatch_state) : string :=
  match s with
  | undefined => "undefined" | merged => "merged"
  | bit => "bit" | byte => "byte" | array_size => "array_size"
  | longs => "longs" | page => "page" | msec => "msec" | jiffy => "jiffy"
  end.

(** The states that carry a unit. *)
Definition concrete (s : smatch_state) : Prop := s ≠ undefined ∧ s ≠ merged.

Record sm_state := SmState { sm_name : string; state : smatch_state }.

(** Diagnostics, one constructor per format string of the file. *)
Inductive sm_message :=
  (* "warn: ambiguous units merge '%s' '%s' or '%s'" *)
  | ambiguous_units_merge (name cur other : string)
  (* "warn: other places set '%s' to '%s' instead of '%s'" *)
  | other_places_set (member old new : string)
  (* "multiplying bits * bytes '%s'" *)
  | multiplying_bits_bytes (str : string)
  (* "missing conversion: '%s' '%s %s %s'" *)
  | missing_conversion (str left op right : string)
  (* "warn: comparing different units: '%s' '%s %s %s'" *)
  | comparing_different_units (str left op right : string).

Global Instance sm_message_eq_dec : EqDecision sm_message.
Proof. solve_decision. Defined.

(** The mutable state the hooks read and write: the path environment of the
    checker, the states at function entry, the statement being walked, the
    in-memory cache database and the on-disk database of an earlier pass,
    and the diagnostics printed so far. *)
Record world := World {
  cur_stree : gmap tracker smatch_state;
  start_states : gmap tracker smatch_state;
  cur_stmt : option stmt_type;
  cache_type_info : list type_info_row;
  db_type_info : list type_info_row;
  cache_return_implies : list return_implies_row;
  msgs : list sm_message;
}.

(** What [process_states] stores for an argument: its state at the return
    carries a unit and is not the state it had on entry. *)
Definition changed_units (w : world) (arg : symbol) (s : smatch_state) : Prop :=
  cur_stree w !! (sym_ident arg, sym_id arg) = Some s ∧ concrete s ∧
  start_states w !! (sym_ident arg, sym_id arg) ≠ Some s.

Definition sm_msg (m : sm_message) (w : world) : world :=
  World (cur_stree w) (start_states w) (cur_stmt w) (cache_type_info w)
        (db_type_info w) (cache_return_implies w) (msgs w ++ [m]).

Definition set_state (k : tracker) (s : smatch_state) (w : world) : world :=
  World (<[k := s]> (cur_stree w)) (start_states w) (cur_stmt w)
        (cache_type_info w) (db_type_info w) (cache_return_implies w) (msgs w).

(** Modelled from the spec: the storage engine behind [sql_insert_cache] is
    the host's; a fact is appended to the table of the cache database and
    nothing is overwritten. *)
Definition sql_insert_cache_type_info (r : type_info_row) (w : world) : world :=
  World (cur_stree w) (start_states w) (cur_stmt w) (cache_type_info w ++ [r])
        (db_type_info w) (cache_return_implies w) (msgs w).

Definition sql_insert_cache_return_implies (r : return_implies_row) (w : world) : world :=
  World (cur_stree w) (start_states w) (cur_stmt w) (cache_type_info w)
        (db_type_info w) (cache_return_implies w ++ [r]) (msgs w).

Definition str_to_units (str : option string) : option smatch_state :=
  match str with
  | None => None
  | Some str =>
      if streq str "bit" then Some bit
      else if streq str "byte" then Some byte
      else if streq str "page" then Some page
      else if streq str "msec" then Some msec
      else if streq str "jiffy" then Some jiffy
      else if streq str "longs" then Some longs
      else if streq str "array_size" then Some array_size
      else if streq str "unknown" then None
      else None
  end.

Definition pre_merge_hook (cur other : sm_state) (w : world) : world :=
  if bool_decide (state cur = state other) then w
  else if bool_decide (state cur = undefined) || bool_decide (state cur = merged)
          || bool_decide (state other = undefined) || bool_decide (state other = merged)
  then w
  else
    (* !__cur_stmt || __cur_stmt->type != STMT_RETURN *)
    if match cur_stmt w with
       | None => true
       | Some type => bool_decide (type ≠ STMT_RETURN)
       end
    then sm_msg (ambiguous_units_merge (sm_name cur) (name (state cur))
                   (name (state other))) w
    else w.

Definition merge_units (s1 s2 : smatch_state) : smatch_state :=
  if bool_decide (s1 = undefined) then s2
  else if bool_decide (s2 = undefined) then s1
  else merged.

Section inference.
Context `{Host}.

Definition is_ignored_type (name : option string) : bool :=
  match name with
  | None => false
  | Some name =>
      if streq name "(union anonymous)->__val" then true
      (* strncmp(name, "(struct fs_parse_result)", 24) == 0 *)
      else if String.prefix "(struct fs_parse_result)" name then true
      else false
  end.

Definition is_PAGE_SHIFT (expr : expression) : bool :=
  match get_macro_name (expr_pos expr) with
  | Some macro => streq macro "PAGE_SHIFT"
  | None => false
  end.

Definition is_PAGE_SIZE (expr : expression) : bool :=
  match get_macro_name (expr_pos expr) with
  | Some macro => streq macro "PAGE_SIZE"
  | None => false
  end.

Definition is_BITS_PER_LONG (expr : expression) : bool :=
  match get_macro_name (expr_pos expr) with
  | Some macro => streq macro "BITS_PER_LONG"
  | None => false
  end.

(** [binop_helper] and [get_units] call each other in C; the call back into
    [get_units] is the first argument here and the knot is tied below. *)
Definition binop_helper (get_units : expression → option smatch_state)
    (left : expression) (op : op_t) (right : expression) : option smatch_state :=
  match op with
  | OP "-" | OP "+" =>
      let left_state := get_units left in
      let right_state := get_units right in
      if bool_decide (left_state = Some array_size)
         || bool_decide (right_state = Some array_size)
      then None
      else match left_state with Some _ => left_state | None => right_state end
  | OP "*" =>
      if is_PAGE_SIZE right then Some byte
      else match get_implied_value right with
           | None => None
           | Some val => if bool_decide (val = 4096%Z) then Some byte else None
           end
  | OP "/" =>
      if is_BITS_PER_LONG right then Some longs
      else if is_PAGE_SIZE right then Some page
      else match get_implied_value right with
           | None => None
           | Some val => if bool_decide (val = 4096%Z) then Some page else None
           end
  | SPECIAL SPECIAL_LEFTSHIFT =>
      if is_PAGE_SHIFT right then Some byte else None
  | SPECIAL SPECIAL_RIGHTSHIFT =>
      if is_PAGE_SHIFT right then Some page else None
  | _ => None
  end.

Definition get_units_binop (get_units : expression → option smatch_state)
    (expr : expression) : option smatch_state :=
  match expr with
  | EXPR_BINOP _ op l r => binop_helper get_units l op r
  | _ => None
  end.

Definition get_units_call (expr : expression) : option smatch_state :=
  match strip_expr expr with
  | Some (EXPR_CALL _ fn _ as expr) =>
      if sym_name_is "msecs_to_jiffies" fn then Some jiffy
      else if sym_name_is "jiffies_to_msecs" fn then Some msec
      else None
  | _ => None
  end.

(** The callback of the two queries: [units] is the accumulator the caller
    passes by address, [argv0] the selected [value] column of one row. *)
Definition db_units (units : option string) (argv0 : string) : option string :=
  match units with
  | Some u => if streq u argv0 then Some u else Some "unknown"
  | None => Some argv0
  end.

(** Modelled from the spec: [cache_sql] and [run_sql] belong to the host's
    storage engine; each runs "select value from type_info where type = %d
    and key = '%s'" on its database and calls the callback once per selected
    row, in the order the rows were inserted. *)
Definition select_value_from_type_info (rows : list type_info_row)
    (type : Z) (key : string) : list string :=
  ti_value <$> filter (λ r, ti_type r = type ∧ ti_key r = key) rows.

Definition run_sql (callback : option string → string → option string)
    (units : option string) (rows : list string) : option string :=
  foldl callback units rows.

Definition get_units_from_type (w : world) (expr : expression) : option smatch_state :=
  match get_member_name expr with
  | None => None
  | Some member =>
      if streq member "(struct vm_area_struct)->vm_pgoff" then Some page
      else
        let units := None in
        let units := run_sql db_units units
                       (select_value_from_type_info (cache_type_info w) UNITS member) in
        let units := run_sql db_units units
                       (select_value_from_type_info (db_type_info w) UNITS member) in
        match units with
        | None => None
        | Some _ => str_to_units units
        end
  end.

(** Modelled from the spec: the path environment maps an expression that
    the host can resolve to a variable to its state. *)
Definition get_state_expr (w : world) (expr : expression) : option smatch_state :=
  match expr_to_var_sym expr with
  | Some k => cur_stree w !! k
  | None => None
  end.

Definition set_state_expr (expr : expression) (s : smatch_state) (w : world) : world :=
  match expr_to_var_sym expr with
  | Some k => set_state k s w
  | None => w
  end.

(** [expr->type == EXPR_PTRSIZEOF || expr->type == EXPR_SIZEOF] *)
Definition sizeof_shaped (expr : expression) : bool :=
  match expr with
  | EXPR_PTRSIZEOF _ | EXPR_SIZEOF _ => true
  | _ => false
  end.

(** The identifier idioms of [get_units], tried in source order. *)
Definition ident_units (ident : option string) : option smatch_state :=
  match ident with
  | None => None
  | Some ident =>
      if streq ident "sizeof" || streq ident "PAGE_SIZE" then Some byte
      else if streq ident "jiffies" then Some jiffy
      else if streq ident "BITS_PER_LONG" then Some bit
      else if streq ident "BITS_PER_LONG_LONG" then Some bit
      else if streq ident "ARRAY_SIZE" then Some array_size
      else None
  end.

(** The body of [get_units], with the recursive calls abstracted. *)
Definition get_units_body (get_units : expression → option smatch_state)
    (w : world) (expr : expression) : option smatch_state :=
  match strip_expr expr with
  | None => None
  | Some expr =>
      if sizeof_shaped expr then Some byte
      else
        match ident_units (pos_ident (expr_pos expr)) with
        | Some s => Some s
        | None =>
            match expr with
            | EXPR_BINOP _ _ _ _ => get_units_binop get_units expr
            | EXPR_CALL _ _ _ => get_units_call expr
            | _ =>
                match get_state_expr w expr with
                | Some merged | Some undefined => None
                | Some state => Some state
                | None => get_units_from_type w expr
                end
            end
        end
  end.

Fixpoint get_units_fuel (fuel : nat) (w : world) (expr : expression)
    : option smatch_state :=
  match fuel with
  | O => None
  | S fuel => get_units_body (get_units_fuel fuel w) w expr
  end.

(** [get_units]: the recursion descends into the operands of what
    [strip_expr] returned, so the size of the expression bounds its depth. *)
Definition get_units (w : world) (expr : expression) : option smatch_state :=
  get_units_fuel (S (expr_size expr)) w expr.

Definition is_array_size_units (w : world) (expr : expression) : bool :=
  bool_decide (get_units w expr = Some array_size).

Definition store_type_in_db (expr : expression) (state : smatch_state)
    (w : world) : world :=
  match get_member_name expr with
  | None => w
  | Some member =>
      if is_ignored_type (Some member) then w
      else
        let old_units := get_units_from_type w expr in
        let w :=
          match old_units with
          | Some old =>
              if bool_decide (old ≠ state)
              then sm_msg (other_places_set member (name old) (name state)) w
              else w
          | None => w
          end in
        sql_insert_cache_type_info
          (TypeInfo get_base_file_id UNITS member (name state)) w
  end.

Definition set_units (expr : expression) (state : option smatch_state)
    (w : world) : world :=
  match state with
  | None => w
  | Some state => store_type_in_db expr state (set_state_expr expr state w)
  end.

(** A run of the checker that stores one observed unit after another. *)
Definition store_types_in_db (l : list (expression * smatch_state)) (w : world)
    : world :=
  foldl (λ w es, store_type_in_db es.1 es.2 w) w l.

(** The hooks on binary operators receive [EXPR_BINOP] nodes only; on any
    other node they are not run and the model leaves the world alone. *)
Definition check_mult (expr : expression) (w : world) : world :=
  match expr with
  | EXPR_BINOP _ _ l r =>
      let left := get_units w l in
      let right := get_units w r in
      let bit_found :=
        bool_decide (left = Some bit) || bool_decide (right = Some bit) in
      let byte_found :=
        bool_decide (left = Some byte) || bool_decide (right = Some byte) in
      if bit_found && byte_found
      then sm_msg (multiplying_bits_bytes (expr_to_str expr)) w
      else w
  | _ => w
  end.

Definition is_ptr_or_array (type : option symbol) : bool :=
  match type with
  | Some type =>
      bool_decide (sym_type type = SYM_PTR) || bool_decide (sym_type type = SYM_ARRAY)
  | None => false
  end.

Definition check_add_sub (expr : expression) (w : world) : world :=
  match expr with
  | EXPR_BINOP _ op l r =>
      if is_ptr_or_array (get_type l) then w
      else
        match get_units w l, get_units w r with
        | Some left_units, Some right_units =>
            if bool_decide (left_units = right_units) then w
            else sm_msg (missing_conversion (expr_to_str expr) (name left_units)
                           (show_special op) (name right_units)) w
        | _, _ => w
        end
  | _ => w
  end.

Definition match_binop_check (expr : expression) (w : world) : world :=
  match expr with
  | EXPR_BINOP _ (OP "+") _ _ | EXPR_BINOP _ (OP "-") _ _ => check_add_sub expr w
  | EXPR_BINOP _ (OP "*") _ _ => check_mult expr w
  | _ => w
  end.

Definition match_binop_set (expr : expression) (w : world) : world :=
  match expr with
  | EXPR_BINOP _ op l r =>
      if bool_decide (op = SPECIAL SPECIAL_LEFTSHIFT) && is_PAGE_SHIFT r
      then set_units l (Some page) w
      else if bool_decide (op = SPECIAL SPECIAL_RIGHTSHIFT) && is_PAGE_SHIFT r
      then set_units l (Some byte) w
      else if bool_decide (op ≠ OP "+") && bool_decide (op ≠ OP "-") then w
      else if is_ptr_or_array (get_type l) then w
      else
        let left := get_units w l in
        let right := get_units w r in
        let w := if bool_decide (is_Some left ∧ right = None)
                 then set_units r left w else w in
        if bool_decide (is_Some right ∧ left = None)
        then set_units l right w else w
  | _ => w
  end.

(** [process_states]: the loop over
    [cur_func_sym->ctype.base_type->arguments]; [param] is the C counter,
    incremented at the top of every iteration (an [int] that counts the
    parameters of one function and stays far from its bounds). *)
Fixpoint process_states_from (param : Z) (arguments : list symbol) (w : world)
    : world :=
  match arguments with
  | [] => w
  | arg :: arguments =>
      let param := (param + 1)%Z in
      match cur_stree w !! (sym_ident arg, sym_id arg) with
      | None => process_states_from param arguments w
      | Some state =>
          if bool_decide (state = merged) || bool_decide (state = undefined)
          then process_states_from param arguments w
          else
            let start_state := start_states w !! (sym_ident arg, sym_id arg) in
            if bool_decide (Some state = start_state)
            then process_states_from param arguments w
            else process_states_from param arguments
                   (sql_insert_cache_return_implies
                      (ReturnImplies get_base_file_id get_function 0 fn_static
                         UNITS param "$" (name state)) w)
      end
  end.

Definition process_states (arguments : list symbol) (w : world) : world :=
  process_states_from (-1) arguments w.

End inference.

End Units.

(** ** Parameters stored into tagged memory *)

(** C [int] is 32 bits wide in two's complement: the value an [int]
    computation wraps to. *)
Definition to_int (z : Z) : Z := ((z + 2 ^ 31) mod 2 ^ 32 - 2 ^ 31)%Z.

Module ParamToMtagData.

(** [mtag_t] is an unsigned 64-bit identity. *)
Definition mtag_t : Type := Z.

Record tag_assign_info := TagAssignInfo { tag : mtag_t; offset : Z; param : Z }.

(** The states of this checker are allocated on every assignment; their
    [data] points to a [tag_assign_info]. *)
Inductive smatch_state :=
  | undefined | merged
  | tag_data (name : string) (data : tag_assign_info).

Global Instance tag_assign_info_eq_dec : EqDecision tag_assign_info.
Proof. solve_decision. Defined.
Global Instance smatch_state_eq_dec : EqDecision smatch_state.
Proof. solve_decision. Defined.

Definition alloc_tag_data_state (tag : mtag_t) (data_name : string)
    (offset param : Z) : smatch_state :=
  tag_data data_name (TagAssignInfo tag offset param).

Definition merge_tag_info (s1 s2 : smatch_state) : smatch_state :=
  (* Basically ignore undefined states *)
  if bool_decide (s1 = undefined) then s2
  else if bool_decide (s2 = undefined) then s1
  else merged.

(** Rows persisted by [insert_mtag_data] and [sql_insert_mtag_map], and the
    alias relation written by [create_mtag_alias]; [range_list] is the
    host's description of the values of the argument. *)
Record mtag_data_row (range_list : Type) := MtagData {
  md_tag : mtag_t; md_name : string; md_offset : Z; md_rl : range_list }.
Global Arguments MtagData {range_list}.

Record mtag_map_row := MtagMap {
  mm_tag : mtag_t; mm_offset : Z; mm_alias : mtag_t }.

Record mtag_alias_row := MtagAlias { ma_orig : mtag_t; ma_alias : mtag_t }.

Class MtagHost := {
  range_list : Type;
  get_param_num_from_sym : symbol → Z;
  get_absolute_rl : expression → range_list;
  get_mtag : expression → option mtag_t;
  new_mtag_alias : mtag_t → expression → option mtag_t;
  strtoul : string → Z;
  atoi : string → Z;
}.

Section propagation.
Context `{Host} `{MtagHost}.

Record world := World {
  cur_stree : gmap tracker smatch_state;
  mtag_alias : list mtag_alias_row;
  mtag_data : list (mtag_data_row range_list);
  mtag_map : list mtag_map_row;
}.

Definition set_state_expr (expr : expression) (s : smatch_state) (w : world)
    : world :=
  match expr_to_var_sym expr with
  | Some k => World (<[k := s]> (cur_stree w)) (mtag_alias w) (mtag_data w) (mtag_map w)
  | None => w
  end.

(** Modelled from the spec: allocate-tag-alias(tag, atExpr) -> newTag.  The
    host picks the alias and records it as one more alias of [tag]; it can
    decline. *)
Definition create_mtag_alias (tag : mtag_t) (expr : expression) (w : world)
    : option mtag_t * world :=
  match new_mtag_alias tag expr with
  | Some alias =>
      (Some alias,
       World (cur_stree w) (mtag_alias w ++ [MtagAlias tag alias]) (mtag_data w)
             (mtag_map w))
  | None => (None, w)
  end.

Definition insert_mtag_data (tag : mtag_t) (data_name : string) (offset : Z)
    (rl : range_list) (w : world) : world :=
  World (cur_stree w) (mtag_alias w)
        (mtag_data w ++ [MtagData tag data_name offset rl]) (mtag_map w).

Definition sql_insert_mtag_map (tag : mtag_t) (offset : Z) (alias : mtag_t)
    (w : world) : world :=
  World (cur_stree w) (mtag_alias w) (mtag_data w)
        (mtag_map w ++ [MtagMap tag offset alias]).

(** Modelled from the spec: get-call-argument(callExpr, index), the
    argument at that position or [NULL]. *)
Definition get_argument_from_call_expr (args : list expression) (num : Z)
    : option expression :=
  if bool_decide (num < 0)%Z then None else args !! Z.to_nat num.

Definition call_args (expr : expression) : list expression :=
  match expr with
  | EXPR_CALL _ _ args => args
  | _ => []
  end.

Definition propogate_assignment (expr : expression) (param : Z) (tag : mtag_t)
    (offset : Z) (w : world) : bool * world :=
  match get_argument_from_call_expr (call_args expr) param with
  | None => (false, w)
  | Some arg =>
      match arg with
      | EXPR_SYMBOL _ sym =>
          let orig_param := get_param_num_from_sym sym in
          if bool_decide (orig_param < 0)%Z then (false, w)
          else
            (* snprintf(buf, sizeof(buf), "$->[%d]", offset) *)
            let buf := "$->[" +:+ pretty offset +:+ "]" in
            (true, set_state_expr arg (alloc_tag_data_state tag buf offset orig_param) w)
      | _ => (false, w)
      end
  end.

Definition assign_to_alias (expr : expression) (param : Z) (tag : mtag_t)
    (offset : Z) (w : world) : world :=
  match get_argument_from_call_expr (call_args expr) param with
  | None => w
  | Some arg =>
      let rl := get_absolute_rl arg in
      match create_mtag_alias tag expr w with
      | (None, w) => w
      | (Some alias, w) =>
          let w := insert_mtag_data alias "" offset rl w in
          match get_mtag arg with
          | Some arg_tag => sql_insert_mtag_map arg_tag (to_int (- offset)) alias w
          | None => w
          end
      end
  end.

(** [p + 1] for a [char *p] that points at a character of a string. *)
Definition str_tail (p : string) : string :=
  match p with
  | EmptyString => EmptyString
  | String _ rest => rest
  end.

Fixpoint strchr (s : string) (c : ascii) : option string :=
  match s with
  | EmptyString => None
  | String a rest => if bool_decide (a = c) then Some s else strchr rest c
  end.

(** [while (expr->type == EXPR_ASSIGNMENT) expr = strip_expr(expr->right);]
    The loop ends because [strip_expr] does not grow what it is given, so
    the size of the expression is fuel enough.  A [NULL] from [strip_expr]
    inside the loop would be dereferenced by the C code; the model stops
    there with [None] and the hook does nothing. *)
Fixpoint skip_assignments (fuel : nat) (expr : expression) : option expression :=
  match expr with
  | EXPR_ASSIGNMENT _ _ _ r =>
      match fuel with
      | O => None
      | S fuel =>
          match strip_expr r with
          | Some expr => skip_assignments fuel expr
          | None => None
          end
      end
  | _ => Some expr
  end.

Definition call_does_mtag_assign (expr : expression) (param : Z)
    (key value : string) (w : world) : world :=
  match skip_assignments (expr_size expr) expr with
  | Some (EXPR_CALL _ _ _ as expr) =>
      let tag := strtoul value in
      match strchr value "+" with
      | None => w
      | Some p =>
          let offset := atoi (str_tail p) in
          match propogate_assignment expr param tag offset w with
          | (true, w) => w
          | (false, w) => assign_to_alias expr param tag offset w
          end
      end
  | _ => w
  end.

End propagation.

End ParamToMtagData.

(** ** The C library functions that read and write the stored facts

    Base-10 [strtoul] and [atoi] on a platform where [long] has 64 bits, and
    the ["%lld"] and ["%d"] conversions of [snprintf]. *)
Module Libc.

Definition isspace (c : ascii) : bool :=
  let n := nat_of_ascii c in
  bool_decide (n = 32) || bool_decide (9 ≤ n ≤ 13).

Definition digit_value (c : ascii) : option Z :=
  let n := Z.of_nat (nat_of_ascii c) in
  if bool_decide (48 ≤ n ≤ 57)%Z then Some (n - 48)%Z else None.

(** The value of the longest prefix of decimal digits, continuing [acc]. *)
Fixpoint digits (s : string) (acc : Z) : Z :=
  match s with
  | EmptyString => acc
  | String c rest =>
      match digit_value c with
      | Some d => digits rest (10 * acc + d)
      | None => acc
      end
  end.

Fixpoint skip_spaces (s : string) : string :=
  match s with
  | String c rest => if isspace c then skip_spaces rest else s
  | EmptyString => s
  end.

(** White space, an optional sign, then digits. *)
Definition sign_and_digits (s : string) : bool * Z :=
  match skip_spaces s with
  | String "-" rest => (true, digits rest 0)
  | String "+" rest => (false, digits rest 0)
  | s => (false, digits s 0)
  end.

(** [strtoul(s, NULL, 10)]: [ULONG_MAX] when the digits do not fit,
    otherwise the value, negated in [unsigned long] after a minus sign. *)
Definition strtoul (s : string) : Z :=
  let '(neg, v) := sign_and_digits s in
  if bool_decide (2 ^ 64 ≤ v)%Z then (2 ^ 64 - 1)%Z
  else if neg then ((- v) mod 2 ^ 64)%Z else v.

(** [strtol(s, NULL, 10)], clamped to [LONG_MIN .. LONG_MAX]. *)
Definition strtol (s : string) : Z :=
  let '(neg, v) := sign_and_digits s in
  let v := if neg then (- v)%Z else v in
  (- 2 ^ 63) `max` (v `min` (2 ^ 63 - 1)).

(** [atoi(s)] is [(int) strtol(s, NULL, 10)]. *)
Definition atoi (s : string) : Z := to_int (strtol s).

(** The value an [unsigned long long] has when ["%lld"] reads it. *)
Definition to_s64 (z : Z) : Z := ((z + 2 ^ 63) mod 2 ^ 64 - 2 ^ 63)%Z.

End Libc.

(** ** A small host to run the checkers on

    [strip_expr] removes parentheses and casts; identifiers and macro names
    are read off the column of a position, as if the analysed file had
    [sizeof], [PAGE_SIZE], [ARRAY_SIZE], [jiffies] at columns 1 to 4 and the
    expansions of [PAGE_SIZE], [PAGE_SHIFT], [BITS_PER_LONG] at columns 10
    to 12. *)
Module Sample.

Fixpoint strip (e : expression) : expression :=
  match e with
  | EXPR_PREOP _ (OP "(") e' => strip e'
  | EXPR_CAST _ e' => strip e'
  | _ => e
  end.

Lemma strip_size e : expr_size (strip e) ≤ expr_size e.
Proof.
  induction e as [| | | | |p o e IH|p e IH| | | |]; try (simpl; lia).
  destruct o as [[[] [] [] [] [] [] [] []]|]; simpl; lia.
Defined.

Definition ident_at (p : position) : option string :=
  match pos_col p with
  | 1 => Some "sizeof" | 2 => Some "PAGE_SIZE" | 3 => Some "ARRAY_SIZE"
  | 4 => Some "jiffies" | _ => None
  end.

Definition macro_at (p : position) : option string :=
  match pos_col p with
  | 10 => Some "PAGE_SIZE" | 11 => Some "PAGE_SHIFT" | 12 => Some "BITS_PER_LONG"
  | _ => None
  end.

Definition var_of (e : expression) : option tracker :=
  match e with
  | EXPR_SYMBOL _ sym => Some (sym_ident sym, sym_id sym)
  | EXPR_DEREF _ (EXPR_SYMBOL _ sym) m => Some (sym_ident sym +:+ "->" +:+ m, sym_id sym)
  | _ => None
  end.

Definition show_op (op : op_t) : string :=
  match op with
  | OP c => String c EmptyString
  | SPECIAL SPECIAL_LEFTSHIFT => "<<"
  | SPECIAL SPECIAL_RIGHTSHIFT => ">>"
  | SPECIAL _ => "?"
  end.

Fixpoint show (e : expression) : string :=
  match e with
  | EXPR_SYMBOL _ sym => sym_ident sym
  | EXPR_BINOP _ op l r => show l +:+ " " +:+ show_op op +:+ " " +:+ show r
  | EXPR_DEREF _ e m => show e +:+ "->" +:+ m
  | EXPR_SIZEOF _ => "sizeof"
  | _ => "<expr>"
  end.

Global Instance host : Host := {|
  strip_expr e := Some (strip e);
  strip_expr_size e e' H :=
    match H in _ = o return match o with Some x => expr_size x ≤ _ | None => True end
    with eq_refl => strip_size e end;
  pos_ident := ident_at;
  get_macro_name := macro_at;
  get_implied_value e := match e with EXPR_VALUE _ v => Some v | _ => None end;
  get_type e := match e with EXPR_SYMBOL _ sym => Some sym | _ => None end;
  get_member_name e :=
    match e with EXPR_DEREF _ _ m => Some ("(struct dev)->" +:+ m) | _ => None end;
  sym_name_is name e :=
    match e with EXPR_SYMBOL _ sym => streq (sym_ident sym) name | _ => false end;
  expr_to_var_sym := var_of;
  expr_to_str := show;
  show_special := show_op;
  UNITS := 1;
  get_base_file_id := 0;
  get_function := "f";
  fn_static := 0;
|}.

Definition at_col (c : nat) : position := Position 0 1 c.
Definition var (x : string) (id : nat) : expression :=
  EXPR_SYMBOL (at_col 0) (Symbol SYM_BASETYPE x id).
Definition ptr (x : string) (id : nat) : expression :=
  EXPR_SYMBOL (at_col 0) (Symbol SYM_PTR x id).

Definition empty_world : Units.world :=
  Units.World ∅ ∅ None [] [] [] [].

(** The caller's parameters are the symbols numbered below 10; the address
    of a variable has a tag of its own; every alias request is granted;
    [strtoul] and [atoi] are the C library's. *)
Global Instance mtag_host : ParamToMtagData.MtagHost := {|
  ParamToMtagData.range_list := string;
  ParamToMtagData.get_param_num_from_sym sym :=
    if bool_decide (sym_id sym < 10) then Z.of_nat (sym_id sym) else (-1)%Z;
  ParamToMtagData.get_absolute_rl _ := "s64min-s64max";
  ParamToMtagData.get_mtag e :=
    match e with
    | EXPR_PREOP _ (OP "&") (EXPR_SYMBOL _ sym) => Some (1000 + Z.of_nat (sym_id sym))%Z
    | _ => None
    end;
  ParamToMtagData.new_mtag_alias tag _ := Some (tag + 1)%Z;
  ParamToMtagData.strtoul := Libc.strtoul;
  ParamToMtagData.atoi := Libc.atoi;
|}.

Definition empty_mtag_world : ParamToMtagData.world :=
  ParamToMtagData.World ∅ [] [] [].

(** [nr_pages * 4096] *)
Definition pages_times_4096 : expression :=
  EXPR_BINOP (at_col 0) (OP "*") (var "nr_pages" 20) (EXPR_VALUE (at_col 0) 4096).

(** [ARRAY_SIZE(buf)]: the expansion [sizeof(buf) / sizeof(buf[0])], every
    node of which stands at the position of the macro's name. *)
Definition array_size_of_buf : expression :=
  EXPR_BINOP (at_col 3) (OP "/") (EXPR_SIZEOF (at_col 3)) (EXPR_SIZEOF (at_col 3)).

(** [len + ARRAY_SIZE(buf)], [len + npages] and [buf + npages] on a path
    where [len] and [buf] are in bytes and [npages] in pages. *)
Definition len_plus_array_size : expression :=
  EXPR_BINOP (at_col 0) (OP "+") (var "len" 21) array_size_of_buf.

Definition len_plus_npages : expression :=
  EXPR_BINOP (at_col 0) (OP "+") (var "len" 21) (var "npages" 22).

Definition buf_plus_npages : expression :=
  EXPR_BINOP (at_col 0) (OP "+") (ptr "buf" 23) (var "npages" 22).

Definition bytes_and_pages : Units.world :=
  Units.World
    (<[("len", 21) := Units.byte]>
       (<[("npages", 22) := Units.page]> (<[("buf", 23) := Units.byte]> ∅)))
    ∅ None [] [] [] [].

(** [dev->len] *)
Definition dev_len : expression := EXPR_DEREF (at_col 0) (var "dev" 24) "len".

(** [f(int a, int b, int c)] at a return where [a] became bytes, [b] kept
    the unit it came in with and [c] has diverged. *)
Definition abc : list symbol :=
  [Symbol SYM_BASETYPE "a" 0; Symbol SYM_BASETYPE "b" 1; Symbol SYM_BASETYPE "c" 2].

Definition at_return : Units.world :=
  Units.World
    (<[("a", 0) := Units.byte]>
       (<[("b", 1) := Units.page]> (<[("c", 2) := Units.merged]> ∅)))
    (<[("b", 1) := Units.page]> ∅)
    (Some STMT_RETURN) [] [] [] [].

(** [request_irq(p, &x)] in a function whose parameter 2 is [p]. *)
Definition request_irq_call : expression :=
  EXPR_CALL (at_col 0) (var "request_irq" 30)
    [var "p" 2; EXPR_PREOP (at_col 0) (OP "&") (var "x" 40)].

Definition some_tag_data : ParamToMtagData.smatch_state :=
  ParamToMtagData.tag_data "$->[16]" (ParamToMtagData.TagAssignInfo 77%Z 16%Z 0%Z).

End Sample.

(** ** The remaining hooks of the units checker *)

(** Host functions that only the hooks below call: [op_remove_assign] turns
    a compound assignment operator into its binary operator, [expr_to_var]
    names an expression, [get_variable_from_key] resolves a key such as
    ["$"] against an argument to a variable name and its symbol, each of
    which can come back [NULL]. *)
Class HooksHost := {
  op_remove_assign : op_t → op_t;
  expr_to_var : expression → option string;
  get_variable_from_key : expression → string → option string * option nat;
}.

(** [struct allocation_info]: the expressions an allocation hook is handed. *)
Record allocation_info := AllocationInfo {
  nr_elems : option expression;
  elem_size : option expression;
  total_size : option expression;
}.

(** A row handed to [sql_insert_caller_info]: the call, the type, the
    parameter, the key and the value. *)
Record caller_info_row := CallerInfo {
  ci_call : expression; ci_type : Z; ci_param : Z; ci_key : string;
  ci_value : string }.

Module UnitsHooks.
Import Units.

Section hooks.
Context `{Host} `{HooksHost}.

(** [get_units] and [set_units] on a pointer that may be [NULL]: the
    host's [strip_expr], [set_state_expr] and [get_member_name] all answer
    [NULL] with nothing. *)
Definition get_units_ptr (w : world) (expr : option expression)
    : option smatch_state :=
  match expr with
  | Some expr => get_units w expr
  | None => None
  end.

Definition set_units_ptr (expr : option expression) (state : option smatch_state)
    (w : world) : world :=
  match expr with
  | Some expr => set_units expr state w
  | None => w
  end.

Definition match_allocation (info : allocation_info) (w : world) : world :=
  let operands :=
    match nr_elems info, elem_size info with
    | Some n, Some e => Some (Some n, Some e)
    | _, _ =>
        match total_size info with
        | Some (EXPR_BINOP _ (OP "*") l r) => Some (strip_expr l, strip_expr r)
        | _ => None
        end
    end in
  match operands with
  | None => w
  | Some (l, r) =>
      let w := if bool_decide (get_units_ptr w l = Some byte)
               then set_units_ptr r (Some array_size) w else w in
      if bool_decide (get_units_ptr w r = Some byte)
      then set_units_ptr l (Some array_size) w else w
  end.

(** The hooks on conditions are run on every condition; they act on
    [EXPR_COMPARE] only. *)
Definition match_condition_check (expr : expression) (w : world) : world :=
  match expr with
  | EXPR_COMPARE _ op l r =>
      match get_units w l, get_units w r with
      | Some left_units, Some right_units =>
          if bool_decide (left_units = right_units) then w
          else sm_msg (comparing_different_units (expr_to_str expr)
                         (name left_units) (show_special op) (name right_units)) w
      | _, _ => w
      end
  | _ => w
  end.


(** [match_assign]; [in_fake_assign] is the host's [__in_fake_assign]. *)
Definition match_assign (in_fake_assign : bool) (expr : expression) (w : world)
    : world :=
  if in_fake_assign then w
  else
    match expr with
    | EXPR_ASSIGNMENT _ op l r =>
        let state :=
          match op with
          | OP "=" => get_units w r
          | SPECIAL SPECIAL_SHR_ASSIGN | SPECIAL SPECIAL_SHL_ASSIGN
          | SPECIAL SPECIAL_DIV_ASSIGN | SPECIAL SPECIAL_MUL_ASSIGN =>
              binop_helper (get_units w) l (op_remove_assign op) r
          | _ => None
          end in
        match state with
        | Some _ => set_units l state w
        | None => w
        end
    | _ => w
    end.

Definition set_implied_units (call arg : expression) (key value : string)
    (w : world) : world :=
  match str_to_units (Some value) with
  | None => w
  | Some state =>
      match get_variable_from_key arg key with
      | (Some name, Some sym) => set_state (name, sym) state w
      | _ => w
      end
  end.

Definition set_param_units (name : string) (sym : symbol) (key value : string)
    (w : world) : world :=
  match str_to_units (Some value) with
  | None => w
  | Some state => set_state (sym_ident sym, sym_id sym) state w
  end.

Definition set_param_units_from_table (expr : expression) (name : string)
    (sym : symbol) (data : string) (w : world) : world :=
  match str_to_units (Some data) with
  | None => w
  | Some state => set_state (name, sym_id sym) state w
  end.

(** [match_call_info]: the loop over the arguments, and the rows it hands
    to [sql_insert_caller_info], in order. *)
Fixpoint match_call_info_from (param : Z) (expr : expression)
    (args : list expression) (w : world) : list caller_info_row :=
  match args with
  | [] => []
  | arg :: args =>
      let param := (param + 1)%Z in
      match get_units w arg with
      | None => match_call_info_from param expr args w
      | Some state =>
          CallerInfo expr UNITS param "$" (name state)
          :: match_call_info_from param expr args w
      end
  end.

Definition match_call_info (expr : expression) (w : world) : list caller_info_row :=
  match expr with
  | EXPR_CALL _ (EXPR_SYMBOL _ _ as fn) args =>
      match expr_to_var fn with
      | None => []
      | Some fn_name => match_call_info_from (-1) expr args w
      end
  | _ => []
  end.

Definition get_unit_str (w : world) (expr : expression) : option string :=
  match get_units w expr with
  | None => None
  | Some state => Some (name state)
  end.

(** An expression whose units live in the path environment under [k]: the
    host resolves it, before and after [strip_expr], to the variable [k],
    and it is none of the shapes [get_units] answers without looking the
    state up (a [sizeof], an idiom identifier, a binary operation, a
    call). *)
Definition tracked_as (expr : expression) (k : tracker) : Prop :=
  expr_to_var_sym expr = Some k ∧
  ∃ e, strip_expr expr = Some e ∧ expr_to_var_sym e = Some k ∧
       sizeof_shaped e = false ∧
       ident_units (pos_ident (expr_pos e)) = None ∧
       match e with
       | EXPR_BINOP _ _ _ _ | EXPR_CALL _ _ _ => False
       | _ => True
       end.

End hooks.
End UnitsHooks.

(** ** The remaining hooks of the parameter-to-mtag checker *)

(** A row handed to [sql_insert_return_states]. *)
Record return_states_row := ReturnStates {
  rs_return_id : Z; rs_return_ranges : string; rs_type : Z; rs_param : Z;
  rs_key : string; rs_value : string }.

Module MtagHooks.
Import ParamToMtagData.

(** [expr_to_mtag_name_offset] of the host resolves an expression, which
    may be [NULL], to the tag it lives in, a name and a byte offset;
    [MTAG_ASSIGN] is the type of the return facts of this checker. *)
Class AssignHost := {
  expr_to_mtag_name_offset : option expression → option (mtag_t * string * Z);
  MTAG_ASSIGN : Z;
}.

Section hooks.
Context `{Host} `{MtagHost} `{AssignHost}.

Definition match_assign (expr : expression) (w : world) : world :=
  match expr with
  | EXPR_ASSIGNMENT _ (OP "=") l r =>
      let left := strip_expr l in
      match strip_expr r with
      | Some (EXPR_SYMBOL _ sym) =>
          let param := get_param_num_from_sym sym in
          if bool_decide (param < 0)%Z then w
          else
            match expr_to_mtag_name_offset left, left with
            | Some (tag, data_name, offset), Some lhs =>
                set_state_expr lhs (alloc_tag_data_state tag data_name offset param) w
            | _, _ => w
            end
      | _ => w
      end
  | _ => w
  end.

(** [snprintf(buf, sizeof(buf), "%lld+%d", data->tag, data->offset)]: at
    most 32 characters, so the 256 of [buf] never cut it. *)
Definition tag_offset_str (data : tag_assign_info) : string :=
  pretty (Libc.to_s64 (tag data)) +:+ "+" +:+ pretty (offset data).

(** [tmp->state->data]: the two states of the host have none. *)
Definition state_data (s : smatch_state) : option tag_assign_info :=
  match s with
  | tag_data _ data => Some data
  | undefined | merged => None
  end.

(** [print_stored_to_mtag]: the rows handed to [sql_insert_return_states],
    one per state of the checker in the current stree that has data. *)
Definition print_stored_to_mtag (return_id : Z) (return_ranges : string)
    (w : world) : list return_states_row :=
  omap (λ sm,
          match state_data sm.2 with
          | None => None
          | Some data =>
              Some (ReturnStates return_id return_ranges MTAG_ASSIGN (param data)
                      "$" (tag_offset_str data))
          end)
       (map_to_list (cur_stree w)).

End hooks.
End MtagHooks.

(** ** More of the sample host, for the remaining hooks *)
Module Sample2.
Import Sample.

Global Instance hooks_host : HooksHost := {|
  op_remove_assign op :=
    match op with
    | SPECIAL SPECIAL_SHL_ASSIGN => SPECIAL SPECIAL_LEFTSHIFT
    | SPECIAL SPECIAL_SHR_ASSIGN => SPECIAL SPECIAL_RIGHTSHIFT
    | SPECIAL SPECIAL_MUL_ASSIGN => OP "*"
    | SPECIAL SPECIAL_DIV_ASSIGN => OP "/"
    | _ => op
    end;
  expr_to_var e :=
    match e with EXPR_SYMBOL _ sym => Some (sym_ident sym) | _ => None end;
  get_variable_from_key arg key :=
    if streq key "$"
    then match var_of arg with
         | Some (n, y) => (Some n, Some y)
         | None => (None, None)
         end
    else (None, None);
|}.

(** A member of a variable lives in the tag of that variable, eight bytes
    in. *)
Global Instance assign_host : MtagHooks.AssignHost := {|
  MtagHooks.expr_to_mtag_name_offset e :=
    match e with
    | Some (EXPR_DEREF _ (EXPR_SYMBOL _ sym) m) =>
        Some ((500 + Z.of_nat (sym_id sym))%Z, m, 8%Z)
    | _ => None
    end;
  MtagHooks.MTAG_ASSIGN := 2;
|}.

(** [nbits * len], [len < npages], [len < count] and [count = len] on the
    path where [len] is in bytes, [npages] in pages, [nbits] in bits and
    [count] has no units. *)
Definition bits_bytes_pages : Units.world :=
  Units.World
    (<[("len", 21) := Units.byte]>
       (<[("npages", 22) := Units.page]> (<[("nbits", 25) := Units.bit]> ∅)))
    ∅ None [] [] [] [].

Definition nbits_times_len : expression :=
  EXPR_BINOP (at_col 0) (OP "*") (var "nbits" 25) (var "len" 21).

Definition len_lt_npages : expression :=
  EXPR_COMPARE (at_col 0) (OP "<") (var "len" 21) (var "npages" 22).





(** [kcalloc(count, sizeof(struct item))] *)
Definition count_by_sizeof : allocation_info :=
  AllocationInfo (Some (var "count" 26)) (Some (EXPR_SIZEOF (at_col 0))) None.

(** [kmalloc(len)] *)
Definition just_len : allocation_info :=
  AllocationInfo None None (Some (var "len" 21)).

(** [copy(len, count, npages)] *)
Definition copy_call : expression :=
  EXPR_CALL (at_col 0) (var "copy" 31)
    [var "len" 21; var "count" 26; var "npages" 22].

(** The facts of two passes over [dev->len], in two orders. *)
Definition byte_then_page : Units.world :=
  Units.World ∅ ∅ None
    [TypeInfo 0 1 "(struct dev)->len" "byte"]
    [TypeInfo 7 1 "(struct dev)->len" "page"] [] [].

Definition page_then_byte : Units.world :=
  Units.World ∅ ∅ None
    [TypeInfo 7 1 "(struct dev)->len" "page"; TypeInfo 0 1 "(struct dev)->len" "byte"]
    [] [] [].

Definition only_byte : Units.world :=
  Units.World ∅ ∅ None [TypeInfo 0 1 "(struct dev)->len" "byte"] [] [] [].

(** [other->len], the same member of another object. *)
Definition other_len : expression := EXPR_DEREF (at_col 0) (var "other" 27) "len".

(** [action->dev_id = p] in a function whose parameter 2 is [p], and the
    state it leaves. *)
Definition store_param : expression :=
  EXPR_ASSIGNMENT (at_col 0) (OP "=")
    (EXPR_DEREF (at_col 0) (var "action" 32) "dev_id") (var "p" 2).

Definition high_tag_data : ParamToMtagData.tag_assign_info :=
  ParamToMtagData.TagAssignInfo (2 ^ 63 + 5)%Z (-16)%Z 2%Z.

Definition stored_world : ParamToMtagData.world :=
  ParamToMtagData.World
    (<[("action->dev_id", 32) := ParamToMtagData.tag_data "dev_id" high_tag_data]> ∅)
    [] [] [].

(** The sample host on a file whose members are those of
    [struct vm_area_struct]. *)
Definition vma_host : Host := {|
  strip_expr := @strip_expr host;
  strip_expr_size := @strip_expr_size host;
  pos_ident := @pos_ident host;
  get_macro_name := @get_macro_name host;
  get_implied_value := @get_implied_value host;
  get_type := @get_type host;
  get_member_name e :=
    match e with
    | EXPR_DEREF _ _ m => Some ("(struct vm_area_struct)->" +:+ m)
    | _ => None
    end;
  sym_name_is := @sym_name_is host;
  expr_to_var_sym := @expr_to_var_sym host;
  expr_to_str := @expr_to_str host;
  show_special := @show_special host;
  UNITS := @UNITS host;
  get_base_file_id := @get_base_file_id host;
  get_function := @get_function host;
  fn_static := @fn_static host;
|}.

(** [vma->vm_pgoff] *)
Definition vma_pgoff : expression :=
  EXPR_DEREF (at_col 0) (var "vma" 28) "vm_pgoff".

(** [ARRAY_SIZE(buf)] in full: [sizeof(buf) / sizeof(buf[0]) + 0], the
    last term standing for the compile-time check that [buf] is an array;
    every node stands at the position of the macro's name. *)
Definition array_size_macro : expression :=
  EXPR_BINOP (at_col 3) (OP "+") array_size_of_buf (EXPR_VALUE (at_col 3) 0).

(** [register(a, b, p)] and [register(a, b, &x)] in the caller. *)
Definition register_param : expression :=
  EXPR_CALL (at_col 0) (var "register" 33) [var "a" 0; var "b" 1; var "p" 3].

Definition register_local : expression :=
  EXPR_CALL (at_col 0) (var "register" 33)
    [var "a" 0; var "b" 1; EXPR_PREOP (at_col 0) (OP "&") (var "x" 40)].

End Sample2.

(** ** Properties of the units checker *)

Module UnitsProps.
Import Units.

Section inference.
Context `{Host}.

Lemma binop_helper_ext (g g' : expression → option smatch_state) l op r :
  g l = g' l → g r = g' r → binop_helper g l op r = binop_helper g' l op r.
Proof. intros Hl Hr. unfold binop_helper. by rewrite Hl, Hr. Qed.

Lemma get_units_body_ext (g g' : expression → option smatch_state) w e :
  (∀ e' p op l r, strip_expr e = Some e' → e' = EXPR_BINOP p op l r →
     g l = g' l ∧ g r = g' r) →
  get_units_body g w e = get_units_body g' w e.
Proof.
  intros Hsub. unfold get_units_body.
  destruct (strip_expr e) as [e'|] eqn:He; [|done].
  destruct (sizeof_shaped e'); [done|].
  destruct (ident_units _); [done|].
  destruct e'; try done. simpl.
  destruct (Hsub _ _ _ _ _ eq_refl eq_refl). by apply binop_helper_ext.
Qed.

(** Any two amounts of fuel above the size of the expression give the same
    answer: the fuel of [get_units] never runs out. *)
Lemma get_units_fuel_enough n m w e :
  expr_size e < n → expr_size e < m →
  get_units_fuel n w e = get_units_fuel m w e.
Proof.
  revert m e. induction n as [|n IH]; intros m e Hn Hm; [lia|].
  destruct m as [|m]; [lia|]. simpl.
  apply get_units_body_ext. intros e' p op l r He ->.
  apply strip_expr_size in He. simpl in He.
  split; apply IH; lia.
Qed.

(** The defining equation of the C function. *)
Lemma get_units_unfold w e :
  get_units w e = get_units_body (get_units w) w e.
Proof.
  unfold get_units at 1. simpl.
  apply get_units_body_ext. intros e' p op l r He ->.
  apply strip_expr_size in He. simpl in He.
  unfold get_units. split; apply get_units_fuel_enough; lia.
Qed.

(** Whatever [get_units] returns is one of the seven units: [undefined]
    and [merged] are filtered out on the way. *)
Lemma get_units_fuel_concrete n w e s :
  get_units_fuel n w e = Some s → concrete s.
Proof.
  revert e s. induction n as [|n IH]; intros e s; [done|]. simpl.
  unfold get_units_body.
  destruct (strip_expr e) as [e'|]; [|done].
  destruct (sizeof_shaped e'); [by intros [= <-]|].
  destruct (ident_units _) as [u|] eqn:Hid.
  { intros [= <-]. unfold ident_units in Hid.
    destruct (pos_ident _); [|done].
    repeat (destruct (streq _ _); simpl in Hid; [by injection Hid as <-|]).
    done. }
  assert (∀ u, get_units_from_type w e' = Some u → concrete u) as Htype.
  { unfold get_units_from_type. intros u.
    destruct (get_member_name e'); [|done].
    destruct (streq _ _); [by intros [= <-]|].
    destruct (run_sql _ _ _) as [str|]; [|done]. simpl.
    repeat (destruct (streq str _); [by intros [= <-]|]). done. }
  assert (∀ u, match get_state_expr w e' with
               | Some merged | Some undefined => None
               | Some state => Some state
               | None => get_units_from_type w e'
               end = Some u → concrete u) as Hstate.
  { intros u. destruct (get_state_expr w e') as [[]|]; try done;
      try (by intros [= <-]). apply Htype. }
  destruct e'; try apply Hstate.
  - simpl. unfold binop_helper.
    destruct op as [[[] [] [] [] [] [] [] []]|[]]; try done;
      repeat match goal with
      | |- context [bool_decide ?P] => destruct (bool_decide P); simpl
      | |- context [is_PAGE_SIZE ?r] => destruct (is_PAGE_SIZE r)
      | |- context [is_PAGE_SHIFT ?r] => destruct (is_PAGE_SHIFT r)
      | |- context [is_BITS_PER_LONG ?r] => destruct (is_BITS_PER_LONG r)
      | |- context [get_implied_value ?r] => destruct (get_implied_value r)
      end; try done; try (by intros [= <-]);
      destruct (get_units_fuel n w e'1) eqn:Hl; try apply IH;
      rewrite <- Hl; apply IH.
  - unfold get_units_call. destruct (strip_expr _) as [[]|]; try done.
    repeat (destruct (sym_name_is _ _); [by intros [= <-]|]). done.
Qed.

Lemma get_units_concrete w e s : get_units w e = Some s → concrete s.
Proof. apply get_units_fuel_concrete. Qed.

Lemma get_units_of_binop w expr p op l r :
  strip_expr expr = Some (EXPR_BINOP p op l r) →
  ident_units (pos_ident p) = None →
  get_units w expr = get_units_binop (get_units w) (EXPR_BINOP p op l r).
Proof.
  intros He Hid. rewrite get_units_unfold. unfold get_units_body.
  rewrite He. simpl. by rewrite Hid.
Qed.

Lemma get_units_binop_at_idiom w expr p op l r u :
  strip_expr expr = Some (EXPR_BINOP p op l r) →
  ident_units (pos_ident p) = Some u →
  get_units w expr = Some u.
Proof.
  intros He Hid. rewrite get_units_unfold. unfold get_units_body.
  rewrite He. simpl. by rewrite Hid.
Qed.

Lemma page_size_not_bits_per_long r :
  is_PAGE_SIZE r = true → is_BITS_PER_LONG r = false.
Proof.
  unfold is_PAGE_SIZE, is_BITS_PER_LONG.
  destruct (get_macro_name _) as [m|]; [|done].
  unfold streq. intros ->%bool_decide_eq_true. done.
Qed.

(** C4, as the code has it.  Units of a multiplication, a division or a
    shift.  For every binary expression the binary rule of [get_units]
    gives [byte] for [*] by the [PAGE_SIZE] macro or by an implied value of
    4096, [longs] for [/] by the [BITS_PER_LONG] macro, [page] for [/] by
    [PAGE_SIZE], or by 4096 when the operand is not [BITS_PER_LONG], [byte]
    for [<<] and [page] for [>>] by the [PAGE_SHIFT] macro, and no unit for
    every other right operand.  That is what [get_units] returns for an
    expression that [strip_expr] reduces to this binary expression when it
    does not stand at one of the idiom identifiers; when it does, it gets
    the unit of the identifier, whatever its operator and operands. *)
Theorem get_units_scaling w p op l r :
  let units := get_units_binop (get_units w) (EXPR_BINOP p op l r) in
  (op = OP "*" →
     (is_PAGE_SIZE r = true ∨ get_implied_value r = Some 4096%Z →
        units = Some byte) ∧
     (is_PAGE_SIZE r = false → get_implied_value r ≠ Some 4096%Z →
        units = None)) ∧
  (op = OP "/" →
     (is_BITS_PER_LONG r = true → units = Some longs) ∧
     (is_PAGE_SIZE r = true → units = Some page) ∧
     (get_implied_value r = Some 4096%Z → is_BITS_PER_LONG r = false →
        units = Some page) ∧
     (is_BITS_PER_LONG r = false → is_PAGE_SIZE r = false →
        get_implied_value r ≠ Some 4096%Z → units = None)) ∧
  (op = SPECIAL SPECIAL_LEFTSHIFT →
     units = if is_PAGE_SHIFT r then Some byte else None) ∧
  (op = SPECIAL SPECIAL_RIGHTSHIFT →
     units = if is_PAGE_SHIFT r then Some page else None) ∧
  (∀ expr,
     strip_expr expr = Some (EXPR_BINOP p op l r) →
     ident_units (pos_ident p) = None →
     get_units w expr = units) ∧
  (∀ expr u,
     strip_expr expr = Some (EXPR_BINOP p op l r) →
     ident_units (pos_ident p) = Some u →
     get_units w expr = Some u).
Proof.
  intros units.
  split; [|split; [|split; [|split; [|split]]]];
    [| | | |intros expr He Hid; by apply get_units_of_binop
     |intros expr u He Hid; by apply (get_units_binop_at_idiom w expr p op l r)];
    intros ->; unfold units, get_units_binop, binop_helper; cbv beta iota;
    [split|split; [|split; [|split]]|done|done].
  - intros [Hp|Hv]; [by rewrite Hp|].
    destruct (is_PAGE_SIZE r); [done|]. rewrite Hv.
    by rewrite bool_decide_eq_true_2.
  - intros Hp Hv. rewrite Hp. destruct (get_implied_value r) as [v|]; [|done].
    rewrite bool_decide_eq_false_2; [done|congruence].
  - by intros ->.
  - intros Hp. by rewrite (page_size_not_bits_per_long _ Hp), Hp.
  - intros Hv Hb. rewrite Hb, Hv. destruct (is_PAGE_SIZE r); [done|].
    by rewrite bool_decide_eq_true_2.
  - intros Hb Hp Hv. rewrite Hb, Hp.
    destruct (get_implied_value r) as [v|]; [|done].
    rewrite bool_decide_eq_false_2; [done|congruence].
Qed.

(** C5, as the code has it.  Units of an addition or subtraction.  For
    every binary [+] or [-] the binary rule of [get_units] gives no unit as
    soon as [get_units] of one operand is [array_size]; otherwise the unit
    of the left operand when it has one, else whatever [get_units] says of
    the right operand.  That is what [get_units] returns for an expression
    that [strip_expr] reduces to this binary expression when it does not
    stand at one of the idiom identifiers; when it does, it gets the unit
    of the identifier, whatever its operands. *)
Theorem get_units_add_sub w p op l r :
  op = OP "+" ∨ op = OP "-" →
  let units := get_units_binop (get_units w) (EXPR_BINOP p op l r) in
  (get_units w l = Some array_size ∨ get_units w r = Some array_size →
     units = None) ∧
  (get_units w l ≠ Some array_size → get_units w r ≠ Some array_size →
     units =
       match get_units w l with
       | Some left_state => Some left_state
       | None => get_units w r
       end) ∧
  (∀ expr,
     strip_expr expr = Some (EXPR_BINOP p op l r) →
     ident_units (pos_ident p) = None →
     get_units w expr = units) ∧
  (∀ expr u,
     strip_expr expr = Some (EXPR_BINOP p op l r) →
     ident_units (pos_ident p) = Some u →
     get_units w expr = Some u).
Proof.
  intros Hop units.
  assert (units =
          if bool_decide (get_units w l = Some array_size)
             || bool_decide (get_units w r = Some array_size)
          then None
          else match get_units w l with
               | Some _ => get_units w l
               | None => get_units w r
               end) as Hunits
    by (by destruct Hop as [-> | ->]).
  split; [|split; [|split]].
  - rewrite Hunits. intros [Hl|Hr].
    + by rewrite (bool_decide_eq_true_2 _ Hl).
    + rewrite (bool_decide_eq_true_2 _ Hr). by rewrite orb_true_r.
  - rewrite Hunits. intros Hl Hr.
    rewrite (bool_decide_eq_false_2 _ Hl), (bool_decide_eq_false_2 _ Hr).
    simpl. by destruct (get_units w l).
  - intros expr He Hid. by apply get_units_of_binop.
  - intros expr u He Hid. by apply (get_units_binop_at_idiom w expr p op l r).
Qed.

(** C6.  The idioms come first: whatever the path environment and the
    databases hold, [get_units] of an expression that strips to a [sizeof]
    is [byte], and an expression at the position of one of the idiom
    identifiers gets the unit of that identifier ([sizeof] and [PAGE_SIZE]
    give [byte], [jiffies] gives [jiffy], [BITS_PER_LONG] and
    [BITS_PER_LONG_LONG] give [bit], [ARRAY_SIZE] gives [array_size]),
    whatever kind of expression it is. *)
Theorem get_units_idioms w expr e :
  strip_expr expr = Some e →
  (sizeof_shaped e = true → get_units w expr = Some byte) ∧
  (∀ ident, pos_ident (expr_pos e) = Some ident →
     (ident = "sizeof" ∨ ident = "PAGE_SIZE" → get_units w expr = Some byte) ∧
     (sizeof_shaped e = false →
        (ident = "jiffies" → get_units w expr = Some jiffy) ∧
        (ident = "BITS_PER_LONG" ∨ ident = "BITS_PER_LONG_LONG" →
           get_units w expr = Some bit) ∧
        (ident = "ARRAY_SIZE" → get_units w expr = Some array_size))).
Proof.
  intros He. rewrite get_units_unfold. unfold get_units_body. rewrite He.
  split; [by intros ->|].
  intros ident ->. split.
  - intros Hi. destruct (sizeof_shaped e); [done|].
    by destruct Hi as [-> | ->].
  - intros ->. repeat split.
    + by intros ->.
    + by intros [-> | ->].
    + by intros ->.
Qed.

Lemma sm_msg_changes m w : sm_msg m w ≠ w.
Proof.
  intros Heq. apply (f_equal (λ w, length (msgs w))) in Heq.
  simpl in Heq. rewrite length_app in Heq. simpl in Heq. lia.
Qed.

(** C7.  The hook that runs before a merge warns when the two states are
    different, both carry a unit, and the statement being walked is not a
    [return]; for two different states it stays silent exactly when the
    statement is a [return] or one of the states is [undefined] or
    [merged].  Equal states never warn. *)
Theorem pre_merge_hook_warns cur other w :
  (state cur = state other → pre_merge_hook cur other w = w) ∧
  (state cur ≠ state other →
     (concrete (state cur) → concrete (state other) →
      cur_stmt w ≠ Some STMT_RETURN →
        pre_merge_hook cur other w =
          sm_msg (ambiguous_units_merge (sm_name cur) (name (state cur))
                    (name (state other))) w) ∧
     (pre_merge_hook cur other w = w ↔
        cur_stmt w = Some STMT_RETURN ∨ ¬ concrete (state cur)
        ∨ ¬ concrete (state other))).
Proof.
  unfold pre_merge_hook, concrete. split.
  - intros Heq. by rewrite bool_decide_eq_true_2.
  - intros Hne. rewrite (bool_decide_eq_false_2 _ Hne). split.
    + intros [Hc1 Hc2] [Ho1 Ho2] Hret.
      rewrite !bool_decide_eq_false_2 by done. simpl.
      destruct (cur_stmt w) as [type|]; [|done].
      rewrite bool_decide_eq_true_2; [done|congruence].
    + destruct (cur_stmt w) as [[]|] eqn:Hstmt;
        repeat case_bool_decide; simpl;
        (split; [intros Hw; try (by apply sm_msg_changes in Hw)|intros Hd]);
        intuition congruence.
Qed.

(** C2, as the code has it.  For an addition or subtraction whose operands
    both have a unit, the binary-operator check prints the "missing
    conversion" warning once when the left operand is neither a pointer nor
    an array and the two units differ, [array_size] included; it prints
    nothing when the left operand is a pointer or an array, or when the two
    units are the same. *)
Theorem missing_conversion_emitted w p op l r left_units right_units :
  op = OP "+" ∨ op = OP "-" →
  get_units w l = Some left_units →
  get_units w r = Some right_units →
  (is_ptr_or_array (get_type l) = false → left_units ≠ right_units →
     match_binop_check (EXPR_BINOP p op l r) w =
       sm_msg (missing_conversion (expr_to_str (EXPR_BINOP p op l r))
                 (name left_units) (show_special op) (name right_units)) w) ∧
  (is_ptr_or_array (get_type l) = true ∨ left_units = right_units →
     match_binop_check (EXPR_BINOP p op l r) w = w).
Proof.
  intros Hop Hl Hr.
  assert (match_binop_check (EXPR_BINOP p op l r) w
          = check_add_sub (EXPR_BINOP p op l r) w) as ->
    by (by destruct Hop as [-> | ->]).
  unfold check_add_sub. rewrite Hl, Hr. split.
  - intros -> Hne. by rewrite bool_decide_eq_false_2.
  - intros [-> | ->]; [done|].
    destruct (is_ptr_or_array _); [done|]. by rewrite bool_decide_eq_true_2.
Qed.

(** C10.  Pointer arithmetic is left alone: when the left operand of an
    addition or subtraction has pointer or array type, neither hook on
    binary operators changes anything, so no warning is printed, no state
    is set and no fact is stored, whatever units the operands have. *)
Theorem pointer_arithmetic_ignored w p op l r :
  op = OP "+" ∨ op = OP "-" →
  is_ptr_or_array (get_type l) = true →
  match_binop_check (EXPR_BINOP p op l r) w = w ∧
  match_binop_set (EXPR_BINOP p op l r) w = w.
Proof.
  intros Hop Hty. split.
  - assert (match_binop_check (EXPR_BINOP p op l r) w
            = check_add_sub (EXPR_BINOP p op l r) w) as ->
      by (by destruct Hop as [-> | ->]).
    unfold check_add_sub. by rewrite Hty.
  - unfold match_binop_set. rewrite Hty. by destruct Hop as [-> | ->].
Qed.

Lemma process_states_from_spec param arguments w :
  ∃ new,
    process_states_from param arguments w =
      World (cur_stree w) (start_states w) (cur_stmt w) (cache_type_info w)
            (db_type_info w) (cache_return_implies w ++ new) (msgs w) ∧
    (∀ r, r ∈ new ↔
       ∃ i arg s,
         arguments !! i = Some arg ∧ changed_units w arg s ∧
         r = ReturnImplies get_base_file_id get_function 0 fn_static UNITS
               (param + 1 + Z.of_nat i) "$" (name s)) ∧
    NoDup (ri_parameter <$> new) ∧
    (∀ r, r ∈ new → (param < ri_parameter r)%Z).
Proof.
  revert param w. induction arguments as [|arg arguments IH]; intros param w.
  { exists []. destruct w; simpl. rewrite app_nil_r.
    split; [done|]. split; [|split; [constructor|]].
    - intros r. split; [by intros ?%elem_of_nil|]. by intros (i & ? & ? & ? & _).
    - by intros r ?%elem_of_nil. }
  set (row s := ReturnImplies get_base_file_id get_function 0 fn_static UNITS
                  (param + 1) "$" (name s)).
  assert ((∃ s, changed_units w arg s ∧
             process_states_from param (arg :: arguments) w =
             process_states_from (param + 1) arguments
               (sql_insert_cache_return_implies (row s) w)) ∨
          ((∀ s, ¬ changed_units w arg s) ∧
             process_states_from param (arg :: arguments) w =
             process_states_from (param + 1) arguments w)) as [Hins|Hskip].
  { unfold changed_units, concrete. simpl.
    destruct (cur_stree w !! (sym_ident arg, sym_id arg)) as [s|];
      [|right; split; [by intros s [? _]|done]].
    repeat case_bool_decide; simpl;
      try (right; split; [intros s' ([= <-] & [? ?] & ?); congruence|done]).
    left. exists s. by repeat split. }
  - destruct Hins as (s & Hs & ->).
    destruct (IH (param + 1)%Z (sql_insert_cache_return_implies (row s) w))
      as (new & -> & Hnew & Hdup & Hlt).
    simpl in *. exists (row s :: new). rewrite <- app_assoc.
    split; [done|]. split; [|split].
    + intros r. rewrite elem_of_cons, Hnew. split.
      * intros [->|(i & a & s' & Hi & Hc & ->)].
        -- exists 0, arg, s. repeat split; try done; try apply Hs.
           unfold row. f_equal; lia.
        -- exists (S i), a, s'. repeat split; try done; try apply Hc.
           f_equal; lia.
      * intros ([|i] & a & s' & Hi & Hc & ->).
        -- left. simpl in Hi. injection Hi as <-.
           destruct Hs as [Hs _], Hc as [Hc _]. rewrite Hs in Hc.
           injection Hc as <-. unfold row. f_equal; lia.
        -- right. exists i, a, s'. repeat split; try done; try apply Hc.
           f_equal; lia.
    + simpl. constructor; [|done].
      intros (r & Hp & Hr)%list_elem_of_fmap. specialize (Hlt r Hr).
      simpl in Hp. lia.
    + intros r [->|Hr]%elem_of_cons; [simpl; lia|].
      specialize (Hlt r Hr). lia.
  - destruct Hskip as (Hno & ->).
    destruct (IH (param + 1)%Z w) as (new & -> & Hnew & Hdup & Hlt).
    exists new. split; [done|]. split; [|split; [done|]].
    + intros r. rewrite Hnew. split.
      * intros (i & a & s & Hi & Hc & ->).
        exists (S i), a, s. repeat split; try done; try apply Hc.
        f_equal; lia.
      * intros ([|i] & a & s & Hi & Hc & ->).
        -- simpl in Hi. injection Hi as <-. by destruct (Hno s).
        -- exists i, a, s. repeat split; try done; try apply Hc.
           f_equal; lia.
    + intros r Hr. specialize (Hlt r Hr). lia.
Qed.

(** C8.  At a return, [process_states] appends to [return_implies] one row
    per argument whose state carries a unit and differs from its state on
    entry, numbered by the position of the argument, with key ["$"] and the
    name of the unit; an argument with no state, an [undefined] or [merged]
    state, or the state it started with gets no row, and nothing else in
    the world changes. *)
Theorem process_states_persists arguments w :
  ∃ new,
    process_states arguments w =
      World (cur_stree w) (start_states w) (cur_stmt w) (cache_type_info w)
            (db_type_info w) (cache_return_implies w ++ new) (msgs w) ∧
    (∀ r, r ∈ new ↔
       ∃ i arg s,
         arguments !! i = Some arg ∧ changed_units w arg s ∧
         r = ReturnImplies get_base_file_id get_function 0 fn_static UNITS
               (Z.of_nat i) "$" (name s)) ∧
    NoDup (ri_parameter <$> new) ∧
    (∀ i arg r,
       arguments !! i = Some arg →
       cur_stree w !! (sym_ident arg, sym_id arg) = None
       ∨ cur_stree w !! (sym_ident arg, sym_id arg) = Some undefined
       ∨ cur_stree w !! (sym_ident arg, sym_id arg) = Some merged
       ∨ cur_stree w !! (sym_ident arg, sym_id arg)
         = start_states w !! (sym_ident arg, sym_id arg) →
       r ∈ new → ri_parameter r ≠ Z.of_nat i).
Proof.
  destruct (process_states_from_spec (-1) arguments w)
    as (new & Heq & Hnew & Hdup & _).
  exists new. split; [done|]. split; [|split; [done|]].
  - intros r. rewrite Hnew. split; intros (i & a & s & Hi & Hc & ->);
      exists i, a, s; repeat split; try done; try apply Hc; f_equal; lia.
  - intros i arg r Hi Hstate (j & a & s & Hj & (Hc & [Hu Hm] & Hst) & ->)%Hnew.
    simpl. intros Hij. assert (j = i) as -> by lia.
    rewrite Hi in Hj. injection Hj as <-. rewrite Hc in Hstate.
    destruct Hstate as [?|[?|[?|?]]]; congruence.
Qed.

Lemma db_units_unknown l : foldl db_units (Some "unknown") l = Some "unknown".
Proof.
  induction l as [|v l IH]; [done|]. simpl.
  unfold streq. by case_bool_decide.
Qed.

Lemma db_units_conflict u v l :
  v ∈ l → v ≠ u → foldl db_units (Some u) l = Some "unknown".
Proof.
  revert u. induction l as [|x l IH]; intros u Hv Hne; [by apply elem_of_nil in Hv|].
  simpl. unfold streq. case_bool_decide as Hx.
  - subst x. apply IH; [|done]. apply elem_of_cons in Hv as [?|?]; [congruence|done].
  - apply db_units_unknown.
Qed.

(** Two different values among the selected rows make the accumulator end
    on ["unknown"], wherever they stand and whatever comes after them. *)
Lemma db_units_widens units v1 v2 l :
  v1 ∈ l → v2 ∈ l → v1 ≠ v2 → foldl db_units units l = Some "unknown".
Proof.
  intros H1 H2 Hne. destruct units as [u|].
  - destruct (decide (v1 = u)) as [->|Hu].
    + by apply (db_units_conflict u v2).
    + by apply (db_units_conflict u v1).
  - destruct l as [|x l]; [by apply elem_of_nil in H1|]. simpl.
    apply elem_of_cons in H1 as [->|H1], H2 as [->|H2]; try done.
    + by apply (db_units_conflict _ v2).
    + by apply (db_units_conflict _ v1).
    + destruct (decide (v1 = x)) as [->|Hx].
      * by apply (db_units_conflict x v2).
      * by apply (db_units_conflict x v1).
Qed.

Lemma name_inj s1 s2 : name s1 = name s2 → s1 = s2.
Proof. by destruct s1, s2. Qed.

Lemma store_type_in_db_keeps expr state w :
  cur_stree (store_type_in_db expr state w) = cur_stree w ∧
  db_type_info (store_type_in_db expr state w) = db_type_info w ∧
  ∀ r, r ∈ cache_type_info w → r ∈ cache_type_info (store_type_in_db expr state w).
Proof.
  unfold store_type_in_db.
  destruct (get_member_name expr) as [member|]; [|done].
  destruct (is_ignored_type _); [done|].
  destruct (get_units_from_type w expr) as [old|]; [case_bool_decide|];
    simpl; repeat split; intros r Hr; apply elem_of_app; by left.
Qed.

Lemma store_type_in_db_inserts expr member state w :
  get_member_name expr = Some member →
  is_ignored_type (Some member) = false →
  TypeInfo get_base_file_id UNITS member (name state)
    ∈ cache_type_info (store_type_in_db expr state w).
Proof.
  intros Hm Hi. unfold store_type_in_db. rewrite Hm, Hi.
  destruct (get_units_from_type w expr) as [old|]; [case_bool_decide|];
    simpl; apply elem_of_app; right; by apply list_elem_of_singleton.
Qed.

Lemma store_types_in_db_keeps l w :
  cur_stree (store_types_in_db l w) = cur_stree w ∧
  db_type_info (store_types_in_db l w) = db_type_info w ∧
  ∀ r, r ∈ cache_type_info w → r ∈ cache_type_info (store_types_in_db l w).
Proof.
  revert w. induction l as [|[e s] l IH]; intros w; [done|]. simpl.
  destruct (IH (store_type_in_db e s w)) as (-> & -> & Hsub).
  destruct (store_type_in_db_keeps e s w) as (-> & -> & Hsub').
  repeat split. intros r Hr. by apply Hsub, Hsub'.
Qed.

Lemma select_value_elem rows type key r :
  r ∈ rows → ti_type r = type → ti_key r = key →
  ti_value r ∈ select_value_from_type_info rows type key.
Proof.
  intros Hr Ht Hk. unfold select_value_from_type_info.
  apply list_elem_of_fmap_2. by apply list_elem_of_filter.
Qed.

(** C3, as the code has it.  Once two different units have been stored for
    a member, the lookup of that member in the fact store ends on
    ["unknown"], and it stays there whatever is stored afterwards, a
    repetition of the first unit included.  What [get_units] answers is
    another matter: [get_units_from_type] returns no unit then, except for
    the one member it never looks up and always reads as [page]; and
    [get_units] returns no unit for an expression that reaches the store,
    that is one with no state of its own in the path environment, while an
    expression with a unit as its state keeps reading as that unit. *)
Theorem widening_is_permanent w expr member s1 s2 later :
  get_member_name expr = Some member →
  is_ignored_type (Some member) = false →
  s1 ≠ s2 →
  let w' :=
    store_types_in_db later
      (store_type_in_db expr s2 (store_type_in_db expr s1 w)) in
  run_sql db_units
    (run_sql db_units None
       (select_value_from_type_info (cache_type_info w') UNITS member))
    (select_value_from_type_info (db_type_info w') UNITS member)
  = Some "unknown" ∧
  (member ≠ "(struct vm_area_struct)->vm_pgoff" →
     get_units_from_type w' expr = None ∧
     ∀ e, strip_expr e = Some expr →
          sizeof_shaped expr = false →
          ident_units (pos_ident (expr_pos expr)) = None →
          (∀ p op l r, expr ≠ EXPR_BINOP p op l r) →
          (∀ p fn args, expr ≠ EXPR_CALL p fn args) →
          get_state_expr w expr = None →
          get_units w' e = None) ∧
  (member = "(struct vm_area_struct)->vm_pgoff" →
     get_units_from_type w' expr = Some page) ∧
  (∀ e st, strip_expr e = Some expr →
           sizeof_shaped expr = false →
           ident_units (pos_ident (expr_pos expr)) = None →
           (∀ p op l r, expr ≠ EXPR_BINOP p op l r) →
           (∀ p fn args, expr ≠ EXPR_CALL p fn args) →
           get_state_expr w expr = Some st →
           concrete st →
           get_units w' e = Some st).
Proof.
  intros Hm Hi Hne w'.
  assert (run_sql db_units
    (run_sql db_units None
       (select_value_from_type_info (cache_type_info w') UNITS member))
    (select_value_from_type_info (db_type_info w') UNITS member)
    = Some "unknown") as Hlookup.
  { unfold run_sql. rewrite <- foldl_app.
    apply (db_units_widens _ (name s1) (name s2)).
    - apply elem_of_app. left.
      apply (select_value_elem _ _ _ (TypeInfo get_base_file_id UNITS member (name s1)));
        try done.
      apply store_types_in_db_keeps, store_type_in_db_keeps.
      by apply store_type_in_db_inserts.
    - apply elem_of_app. left.
      apply (select_value_elem _ _ _ (TypeInfo get_base_file_id UNITS member (name s2)));
        try done.
      apply store_types_in_db_keeps. by apply store_type_in_db_inserts.
    - by intros ?%name_inj. }
  assert (get_state_expr w' expr = get_state_expr w expr) as Hsame.
  { unfold get_state_expr. unfold w'.
    destruct (expr_to_var_sym expr); [|done].
    destruct (store_types_in_db_keeps later
                (store_type_in_db expr s2 (store_type_in_db expr s1 w)))
      as (-> & _).
    destruct (store_type_in_db_keeps expr s2 (store_type_in_db expr s1 w))
      as (-> & _).
    by destruct (store_type_in_db_keeps expr s1 w) as (-> & _). }
  split; [done|]. split; [|split].
  2: { intros ->. unfold get_units_from_type. by rewrite Hm. }
  2: { intros e st He Hsz Hid Hbin Hcall Hst [Hu Hmg].
       rewrite get_units_unfold. unfold get_units_body.
       rewrite He, Hsz, Hid, Hsame, Hst. destruct expr; try by destruct st.
       - by destruct (Hbin pos op expr1 expr2).
       - by destruct (Hcall pos expr args). }
  intros Hpg.
  assert (get_units_from_type w' expr = None) as Htype.
  { unfold get_units_from_type. rewrite Hm.
    unfold streq at 1. rewrite bool_decide_eq_false_2 by done.
    by rewrite Hlookup. }
  split; [done|].
  intros e He Hsz Hid Hbin Hcall Hst.
  rewrite get_units_unfold. unfold get_units_body. rewrite He, Hsz, Hid.
  rewrite Hsame, Hst, Htype. destruct expr; try done.
  - by destruct (Hbin pos op expr1 expr2).
  - by destruct (Hcall pos expr args).
Qed.

End inference.
End UnitsProps.

(** ** Properties of the parameter-to-mtag propagation *)

Module MtagProps.
Import ParamToMtagData.

Section propagation.
Context `{Host} `{MtagHost}.

(** The loop over nested assignments always has fuel left. *)
Lemma skip_assignments_fuel n m e :
  expr_size e ≤ n → expr_size e ≤ m →
  skip_assignments n e = skip_assignments m e.
Proof.
  revert m e. induction n as [|n IH]; intros m e Hn Hm.
  { destruct e; simpl in *; try done; lia. }
  destruct e; try (by destruct m).
  destruct m as [|m]; [simpl in Hm; lia|].
  simpl in Hn, Hm. simpl.
  destruct (strip_expr e2) as [e'|] eqn:He; [|done].
  apply strip_expr_size in He. apply IH; lia.
Qed.

Lemma to_int_neg offset :
  (- 2 ^ 31 < offset < 2 ^ 31)%Z → to_int (- offset) = (- offset)%Z.
Proof.
  intros Hr. unfold to_int.
  rewrite Z.mod_small; lia.
Qed.

(** C9.  Consuming a stored-to-mtag fact at a call.  When the argument at
    the fact's index is a symbol that is a parameter of the caller, the
    only effect is the state recorded for that argument in the path
    environment (tag, offset and the caller's parameter number, named
    ["$->[offset]"]), every other state being kept: no alias, no mtag data,
    no map entry.  For any other argument, once the host has handed out an
    alias for the tag, the alias is recorded, mtag data is stored for the
    alias at the offset with the values of the argument, and a map entry
    from the argument's own tag to the alias is stored with the negated
    offset exactly when the argument has a tag; the path environment is
    left alone. *)
Theorem call_does_mtag_assign_spec w expr call_pos fn args P key value p arg :
  skip_assignments (expr_size expr) expr = Some (EXPR_CALL call_pos fn args) →
  strchr value "+" = Some p →
  get_argument_from_call_expr args P = Some arg →
  let call := EXPR_CALL call_pos fn args in
  let tag := strtoul value in
  let offset := atoi (str_tail p) in
  let w' := call_does_mtag_assign expr P key value w in
  (∀ pos sym,
     arg = EXPR_SYMBOL pos sym → (0 ≤ get_param_num_from_sym sym)%Z →
     let recorded :=
       tag_data ("$->[" +:+ pretty offset +:+ "]")
         (TagAssignInfo tag offset (get_param_num_from_sym sym)) in
     w' = set_state_expr arg
            (alloc_tag_data_state tag ("$->[" +:+ pretty offset +:+ "]") offset
               (get_param_num_from_sym sym)) w ∧
     (∀ k, expr_to_var_sym arg = Some k →
           cur_stree w' !! k = Some recorded ∧
           ∀ k', k' ≠ k → cur_stree w' !! k' = cur_stree w !! k') ∧
     mtag_alias w' = mtag_alias w ∧ mtag_data w' = mtag_data w ∧
     mtag_map w' = mtag_map w) ∧
  ((∀ pos sym, arg = EXPR_SYMBOL pos sym → (get_param_num_from_sym sym < 0)%Z) →
   ∀ alias, new_mtag_alias tag call = Some alias →
     cur_stree w' = cur_stree w ∧
     mtag_alias w' = mtag_alias w ++ [MtagAlias tag alias] ∧
     mtag_data w' = mtag_data w ++ [MtagData alias "" offset (get_absolute_rl arg)] ∧
     mtag_map w' =
       mtag_map w ++
       match get_mtag arg with
       | Some arg_tag => [MtagMap arg_tag (to_int (- offset)) alias]
       | None => []
       end) ∧
  ((- 2 ^ 31 < offset < 2 ^ 31)%Z → to_int (- offset) = (- offset)%Z).
Proof.
  intros Hcall Hp Harg call tag offset w'.
  assert (w' = match propogate_assignment call P tag offset w with
               | (true, w) => w
               | (false, w) => assign_to_alias call P tag offset w
               end) as Hw'.
  { unfold w', call_does_mtag_assign. by rewrite Hcall, Hp. }
  split; [|split; [|apply to_int_neg]].
  - intros pos sym -> Hnum recorded.
    assert (w' = set_state_expr (EXPR_SYMBOL pos sym)
                   (alloc_tag_data_state tag ("$->[" +:+ pretty offset +:+ "]")
                      offset (get_param_num_from_sym sym)) w) as Hset.
    { rewrite Hw'. unfold propogate_assignment. simpl. rewrite Harg.
      by rewrite bool_decide_eq_false_2 by lia. }
    split; [done|]. rewrite Hset. unfold set_state_expr. split.
    + intros k ->. simpl. split; [apply lookup_insert_eq|].
      intros k' Hne. by apply lookup_insert_ne.
    + by destruct (expr_to_var_sym _).
  - intros Hbare alias Halias. rewrite Hw'.
    assert (propogate_assignment call P tag offset w = (false, w)) as ->.
    { unfold propogate_assignment. simpl. rewrite Harg.
      destruct arg; try done.
      by rewrite bool_decide_eq_true_2 by eauto. }
    unfold assign_to_alias, create_mtag_alias. simpl. rewrite Harg, Halias.
    destruct (get_mtag arg); simpl; by rewrite ?app_nil_r.
Qed.

End propagation.
End MtagProps.

(** ** The merge hooks of the two checkers *)

(** C1, as the code has it.  Both merge hooks return the other state when
    one of the two is [undefined], and [merged] in every other case: for
    two different states that carry a value, and also for such a state
    merged with itself.  A state is a fixed point of its own merge only
    when it is [undefined] or [merged]; on two different states the hooks
    are the merge of the lattice. *)
Theorem merge_hooks_spec :
  (∀ X, Units.merge_units Units.undefined X = X ∧
        Units.merge_units X Units.undefined = X) ∧
  (∀ X Y, X ≠ Units.undefined → Y ≠ Units.undefined →
          Units.merge_units X Y = Units.merged) ∧
  (∀ X, Units.merge_units X X = X ↔ X = Units.undefined ∨ X = Units.merged) ∧
  (∀ X Y, X ≠ Y →
          Units.merge_units X Y
          = lattice_merge Units.undefined Units.merged X Y) ∧
  (∀ X, ParamToMtagData.merge_tag_info ParamToMtagData.undefined X = X ∧
        ParamToMtagData.merge_tag_info X ParamToMtagData.undefined = X) ∧
  (∀ X Y, X ≠ ParamToMtagData.undefined → Y ≠ ParamToMtagData.undefined →
          ParamToMtagData.merge_tag_info X Y = ParamToMtagData.merged) ∧
  (∀ X, ParamToMtagData.merge_tag_info X X = X ↔
        X = ParamToMtagData.undefined ∨ X = ParamToMtagData.merged) ∧
  (∀ X Y, X ≠ Y →
          ParamToMtagData.merge_tag_info X Y
          = lattice_merge ParamToMtagData.undefined ParamToMtagData.merged X Y).
Proof.
  unfold Units.merge_units, ParamToMtagData.merge_tag_info, lattice_merge.
  split; [|split; [|split; [|split; [|split; [|split; [|split]]]]]].
  - intros X. by destruct X.
  - intros X Y HX HY. by rewrite !bool_decide_eq_false_2.
  - intros X. destruct X; simpl; intuition congruence.
  - intros X Y HXY. by rewrite (bool_decide_eq_false_2 (X = Y)).
  - intros X. by destruct X.
  - intros X Y HX HY. by rewrite !bool_decide_eq_false_2.
  - intros X. destruct X; simpl; intuition congruence.
  - intros X Y HXY. by rewrite (bool_decide_eq_false_2 (X = Y)).
Qed.

(** ** The theorems at work on the sample host *)

Lemma merge_hooks_witness :
  Units.merge_units Units.byte Units.page = Units.merged.
Proof. apply (proj1 (proj2 merge_hooks_spec)); discriminate. Defined.

(** A state that carries a unit, merged with itself by the hook, comes out
    as [merged]: it is not returned unchanged. *)
Lemma merge_self_is_merged :
  Units.merge_units Units.byte Units.byte = Units.merged ∧
  Units.merge_units Units.byte Units.byte ≠ Units.byte ∧
  ParamToMtagData.merge_tag_info Sample.some_tag_data Sample.some_tag_data
    = ParamToMtagData.merged ∧
  ParamToMtagData.merge_tag_info Sample.some_tag_data Sample.some_tag_data
    ≠ Sample.some_tag_data.
Proof. repeat split; discriminate. Qed.

Lemma missing_conversion_witness :
  Units.match_binop_check Sample.len_plus_npages Sample.bytes_and_pages =
  Units.sm_msg (Units.missing_conversion "len + npages" "byte" "+" "page")
    Sample.bytes_and_pages.
Proof.
  refine (proj1 (UnitsProps.missing_conversion_emitted Sample.bytes_and_pages
                   (Sample.at_col 0) (OP "+") (Sample.var "len" 21)
                   (Sample.var "npages" 22) Units.byte Units.page _ _ _) _ _);
    first [reflexivity|discriminate|by left].
Defined.

(** Bytes plus an [ARRAY_SIZE]: both operands have a unit, one of them is
    [array_size], and the check still prints the warning, once. *)
Lemma byte_plus_array_size_warns :
  Units.get_units Sample.bytes_and_pages (Sample.var "len" 21) = Some Units.byte ∧
  Units.get_units Sample.bytes_and_pages Sample.array_size_of_buf
    = Some Units.array_size ∧
  Units.msgs (Units.match_binop_check Sample.len_plus_array_size
                Sample.bytes_and_pages)
    = [Units.missing_conversion "len + sizeof / sizeof" "byte" "+" "array_size"].
Proof. repeat split. Qed.

(** Widened in the store, yet [get_units] has a unit.  After bytes, pages
    and bytes again have been set on [dev->len], the lookup of the member
    is at ["unknown"], but on the path that did it [get_units] answers with
    the state set last; and for [vma->vm_pgoff] the store is never asked:
    after the same three stores the member still reads as [page]. *)
Lemma widening_not_seen_by_get_units :
  let w :=
    Units.set_units Sample.dev_len (Some Units.byte)
      (Units.set_units Sample.dev_len (Some Units.page)
         (Units.set_units Sample.dev_len (Some Units.byte) Sample.empty_world)) in
  let w_vma :=
    @Units.store_types_in_db Sample2.vma_host [(Sample2.vma_pgoff, Units.byte)]
      (@Units.store_type_in_db Sample2.vma_host Sample2.vma_pgoff Units.page
         (@Units.store_type_in_db Sample2.vma_host Sample2.vma_pgoff Units.byte
            Sample.empty_world)) in
  Units.run_sql Units.db_units None
    (Units.select_value_from_type_info (Units.cache_type_info w) 1
       "(struct dev)->len") = Some "unknown" ∧
  Units.get_units w Sample.dev_len = Some Units.byte ∧
  Units.run_sql Units.db_units None
    (Units.select_value_from_type_info (Units.cache_type_info w_vma) 1
       "(struct vm_area_struct)->vm_pgoff") = Some "unknown" ∧
  @Units.get_units_from_type Sample2.vma_host w_vma Sample2.vma_pgoff
    = Some Units.page ∧
  @Units.get_units Sample2.vma_host w_vma Sample2.vma_pgoff = Some Units.page.
Proof. repeat split. Qed.

(** [ARRAY_SIZE(buf)] is a division whose right operand is neither the
    page size, nor 4096, nor [BITS_PER_LONG], and [get_units] gives it a
    unit all the same: the one of the identifier it stands at. *)
Lemma division_at_array_size_has_units :
  Sample.array_size_of_buf
    = EXPR_BINOP (Sample.at_col 3) (OP "/") (EXPR_SIZEOF (Sample.at_col 3))
        (EXPR_SIZEOF (Sample.at_col 3)) ∧
  Units.is_PAGE_SIZE (EXPR_SIZEOF (Sample.at_col 3)) = false ∧
  Units.is_BITS_PER_LONG (EXPR_SIZEOF (Sample.at_col 3)) = false ∧
  get_implied_value (EXPR_SIZEOF (Sample.at_col 3)) = None ∧
  Units.get_units Sample.empty_world Sample.array_size_of_buf
    = Some Units.array_size ∧
  Units.get_units Sample.empty_world Sample.array_size_of_buf ≠ None.
Proof. repeat split. discriminate. Qed.

(** The whole of [ARRAY_SIZE(buf)] is an addition whose left operand has
    units [array_size], and [get_units] gives it the unit [array_size], not
    none. *)
Lemma addition_at_array_size_has_units :
  Sample2.array_size_macro
    = EXPR_BINOP (Sample.at_col 3) (OP "+") Sample.array_size_of_buf
        (EXPR_VALUE (Sample.at_col 3) 0) ∧
  Units.get_units Sample.empty_world Sample.array_size_of_buf
    = Some Units.array_size ∧
  Units.get_units Sample.empty_world Sample2.array_size_macro
    = Some Units.array_size ∧
  Units.get_units Sample.empty_world Sample2.array_size_macro ≠ None.
Proof. repeat split. discriminate. Qed.

Lemma widening_witness :
  Units.get_units_from_type
    (Units.store_types_in_db [(Sample.dev_len, Units.byte)]
       (Units.store_type_in_db Sample.dev_len Units.page
          (Units.store_type_in_db Sample.dev_len Units.byte Sample.empty_world)))
    Sample.dev_len = None.
Proof.
  refine (proj1 (proj1 (proj2 (UnitsProps.widening_is_permanent
                                 Sample.empty_world Sample.dev_len
                                 "(struct dev)->len" Units.byte Units.page
                                 [(Sample.dev_len, Units.byte)] _ _ _)) _));
    first [reflexivity|discriminate].
Defined.

Lemma get_units_scaling_witness :
  Units.get_units Sample.empty_world Sample.pages_times_4096 = Some Units.byte.
Proof.
  pose proof (UnitsProps.get_units_scaling Sample.empty_world (Sample.at_col 0)
                (OP "*") (Sample.var "nr_pages" 20)
                (EXPR_VALUE (Sample.at_col 0) 4096)) as (Hmul & _ & _ & _ & Hget & _).
  rewrite (Hget Sample.pages_times_4096) by reflexivity.
  apply Hmul; [reflexivity|by right].
Defined.

Lemma get_units_add_sub_witness :
  Units.get_units Sample.bytes_and_pages Sample.len_plus_npages = Some Units.byte.
Proof.
  assert (OP "+" = OP "+" ∨ OP "+" = OP "-") as Hop by (by left).
  pose proof (UnitsProps.get_units_add_sub Sample.bytes_and_pages (Sample.at_col 0)
                (OP "+") (Sample.var "len" 21) (Sample.var "npages" 22) Hop)
    as (_ & Hadd & Hget & _).
  rewrite (Hget Sample.len_plus_npages) by reflexivity.
  apply Hadd; discriminate.
Defined.

Lemma get_units_idioms_witness :
  Units.get_units Sample.bytes_and_pages
    (EXPR_CAST (Sample.at_col 0) (EXPR_SIZEOF (Sample.at_col 0))) = Some Units.byte.
Proof.
  refine (proj1 (UnitsProps.get_units_idioms Sample.bytes_and_pages _
                   (EXPR_SIZEOF (Sample.at_col 0)) _) _); reflexivity.
Defined.

Lemma pre_merge_hook_witness :
  Units.pre_merge_hook (Units.SmState "len" Units.byte)
    (Units.SmState "len" Units.page) Sample.bytes_and_pages =
  Units.sm_msg (Units.ambiguous_units_merge "len" "byte" "page")
    Sample.bytes_and_pages.
Proof.
  refine (proj1 (proj2 (UnitsProps.pre_merge_hook_warns
                          (Units.SmState "len" Units.byte)
                          (Units.SmState "len" Units.page)
                          Sample.bytes_and_pages) _) _ _ _);
    first [discriminate|split; discriminate].
Defined.

Lemma process_states_witness :
  ∃ new,
    Units.cache_return_implies (Units.process_states Sample.abc Sample.at_return)
      = new ∧
    ReturnImplies 0 "f" 0 0 1 0 "$" "byte" ∈ new.
Proof.
  destruct (UnitsProps.process_states_persists Sample.abc Sample.at_return)
    as (new & Heq & Hnew & _).
  exists new. split; [by rewrite Heq|].
  apply Hnew. exists 0, (Symbol SYM_BASETYPE "a" 0), Units.byte.
  repeat split; discriminate.
Defined.

Lemma call_does_mtag_assign_witness :
  ParamToMtagData.cur_stree
    (ParamToMtagData.call_does_mtag_assign Sample.request_irq_call 0 "$" "77+16"
       Sample.empty_mtag_world) !! ("p", 2)
  = Some (ParamToMtagData.tag_data "$->[16]"
            (ParamToMtagData.TagAssignInfo 77%Z 16%Z 2%Z)) ∧
  ParamToMtagData.mtag_map
    (ParamToMtagData.call_does_mtag_assign Sample.request_irq_call 1 "$" "77+16"
       Sample.empty_mtag_world)
  = [ParamToMtagData.MtagMap 1040%Z (-16)%Z 78%Z].
Proof.
  split.
  - refine (proj1 (proj1 (proj2 (proj1
              (MtagProps.call_does_mtag_assign_spec Sample.empty_mtag_world
                 Sample.request_irq_call (Sample.at_col 0)
                 (Sample.var "request_irq" 30)
                 [Sample.var "p" 2;
                  EXPR_PREOP (Sample.at_col 0) (OP "&") (Sample.var "x" 40)]
                 0 "$" "77+16" "+16" (Sample.var "p" 2) _ _ _)
              (Sample.at_col 0) (Symbol SYM_BASETYPE "p" 2) _ _))
              ("p", 2) _));
      first [reflexivity|vm_compute; discriminate].
  - refine (proj2 (proj2 (proj2 (proj1 (proj2
              (MtagProps.call_does_mtag_assign_spec Sample.empty_mtag_world
                 Sample.request_irq_call (Sample.at_col 0)
                 (Sample.var "request_irq" 30)
                 [Sample.var "p" 2;
                  EXPR_PREOP (Sample.at_col 0) (OP "&") (Sample.var "x" 40)]
                 1 "$" "77+16" "+16"
                 (EXPR_PREOP (Sample.at_col 0) (OP "&") (Sample.var "x" 40))
                 _ _ _)) _ 78%Z _))));
      first [reflexivity|discriminate].
Defined.

Lemma pointer_arithmetic_witness :
  Units.match_binop_check Sample.buf_plus_npages Sample.bytes_and_pages
    = Sample.bytes_and_pages ∧
  Units.match_binop_set Sample.buf_plus_npages Sample.bytes_and_pages
    = Sample.bytes_and_pages.
Proof.
  refine (UnitsProps.pointer_arithmetic_ignored Sample.bytes_and_pages
            (Sample.at_col 0) (OP "+") (Sample.ptr "buf" 23)
            (Sample.var "npages" 22) _ _); first [reflexivity|by left].
Defined.

(** ** More properties of the units checker *)

Module UnitsHooksProps.
Import Units UnitsHooks UnitsProps.

(** Unit names.  [str_to_units] reads back exactly the names of the seven
    units: it inverts [name] on every state that carries a unit, and any
    other string, the names of [undefined] and [merged] and ["unknown"]
    included, gives no state. *)
Theorem str_to_units_name :
  (∀ s, concrete s → str_to_units (Some (name s)) = Some s) ∧
  (∀ str s, str_to_units (Some str) = Some s → concrete s ∧ str = name s) ∧
  str_to_units (Some "unknown") = None ∧
  str_to_units (Some (name undefined)) = None ∧
  str_to_units (Some (name merged)) = None.
Proof.
  split; [|split; [|done]].
  - intros s [Hu Hm]. by destruct s.
  - intros str s. unfold str_to_units, streq.
    repeat (case_bool_decide as Hs;
            [subst str; intros [= <-]; by split|clear Hs]).
    done.
Qed.

Section hooks.
Context `{Host} `{HooksHost}.

(** The string form of the units of an expression reads back as those
    units: [str_to_units (get_unit_str expr)] is [get_units expr], so
    [get_units] never answers [undefined] or [merged]. *)
Theorem get_unit_str_round_trip w expr :
  str_to_units (get_unit_str w expr) = get_units w expr ∧
  get_units w expr ≠ Some undefined ∧ get_units w expr ≠ Some merged.
Proof.
  unfold get_unit_str.
  destruct (get_units w expr) as [s|] eqn:Hu; [|done].
  apply get_units_concrete in Hu as [Hu Hm].
  split; [by destruct s|]. split; congruence.
Qed.

(** The multiplication check warns exactly when one operand is in bits and
    the other in bytes, and then once. *)
Theorem check_mult_warns w p l r :
  let expr := EXPR_BINOP p (OP "*") l r in
  let mixed :=
    (get_units w l = Some bit ∧ get_units w r = Some byte) ∨
    (get_units w l = Some byte ∧ get_units w r = Some bit) in
  (mixed →
     match_binop_check expr w = sm_msg (multiplying_bits_bytes (expr_to_str expr)) w) ∧
  (¬ mixed → match_binop_check expr w = w).
Proof.
  intros expr mixed. unfold mixed, expr. simpl.
  destruct (get_units w l) as [[]|], (get_units w r) as [[]|];
    simpl; split; try done; try (intros [[? ?]|[? ?]]; done);
    intros Hn; destruct Hn; auto.
Qed.

(** The comparison check warns exactly when both sides of a comparison
    have units and the units differ, and then once; it has no exception for
    pointers or for [array_size], and ignores conditions that are not
    comparisons. *)
Theorem match_condition_check_warns w expr :
  (∀ p op l r left_units right_units,
     expr = EXPR_COMPARE p op l r →
     get_units w l = Some left_units → get_units w r = Some right_units →
     left_units ≠ right_units →
     match_condition_check expr w =
       sm_msg (comparing_different_units (expr_to_str expr) (name left_units)
                 (show_special op) (name right_units)) w) ∧
  (∀ p op l r,
     expr = EXPR_COMPARE p op l r →
     get_units w l = None ∨ get_units w r = None
     ∨ get_units w l = get_units w r →
     match_condition_check expr w = w) ∧
  ((∀ p op l r, expr ≠ EXPR_COMPARE p op l r) →
     match_condition_check expr w = w).
Proof.
  split; [|split].
  - intros p op l r lu ru -> Hl Hr Hne. simpl. rewrite Hl, Hr.
    by rewrite bool_decide_eq_false_2.
  - intros p op l r -> Hcase. simpl.
    destruct (get_units w l) as [lu|], (get_units w r) as [ru|]; try done.
    destruct Hcase as [?|[?|[= ->]]]; try done.
    by rewrite bool_decide_eq_true_2.
  - intros Hne. destruct expr; try done. by destruct (Hne pos op expr1 expr2).
Qed.

(** The three checks only report: whatever they are run on, the world
    comes back as it was or with one more message, so the path environment
    and the databases are never written by a check. *)
Theorem checks_only_report w expr cur other :
  (match_binop_check expr w = w ∨ ∃ m, match_binop_check expr w = sm_msg m w) ∧
  (match_condition_check expr w = w
   ∨ ∃ m, match_condition_check expr w = sm_msg m w) ∧
  (pre_merge_hook cur other w = w ∨ ∃ m, pre_merge_hook cur other w = sm_msg m w).
Proof.
  split; [|split].
  - destruct expr; try (by left).
    destruct op as [[[] [] [] [] [] [] [] []]|]; try (by left);
      unfold match_binop_check, check_add_sub, check_mult;
      repeat case_match; eauto.
  - destruct expr; try (by left). simpl.
    destruct (get_units w expr1), (get_units w expr2); try (by left).
    case_bool_decide; eauto.
  - unfold pre_merge_hook.
    repeat match goal with |- context [if ?b then _ else _] => destruct b end;
      eauto.
Qed.

Lemma get_units_tracked w expr k :
  tracked_as expr k →
  ∀ s, cur_stree w !! k = Some s →
       get_units w expr = match s with merged | undefined => None | _ => Some s end.
Proof.
  intros (_ & e & He & Hk & Hsz & Hid & Hshape) s Hs.
  rewrite get_units_unfold. unfold get_units_body.
  rewrite He, Hsz, Hid. unfold get_state_expr. rewrite Hk, Hs.
  by destruct e, s.
Qed.

Lemma set_units_cur_stree expr s w :
  cur_stree (set_units expr (Some s) w) =
    match expr_to_var_sym expr with
    | Some k => <[k := s]> (cur_stree w)
    | None => cur_stree w
    end.
Proof.
  unfold set_units.
  destruct (store_type_in_db_keeps expr s (set_state_expr expr s w)) as (-> & _).
  unfold set_state_expr. by destruct (expr_to_var_sym expr).
Qed.

Lemma set_units_get_units_eq w expr k s :
  tracked_as expr k → concrete s →
  get_units (set_units expr (Some s) w) expr = Some s.
Proof.
  intros Ht [Hu Hm].
  rewrite (get_units_tracked _ expr k Ht s).
  - by destruct s.
  - rewrite set_units_cur_stree. destruct Ht as (-> & _).
    apply lookup_insert_eq.
Qed.

(** Setting and getting.  After [set_units] has put a unit on an expression
    that is tracked in the path environment, [get_units] of that
    expression is this unit, whatever was known before; and the units of
    any other tracked expression that has a state of its own are what they
    were. *)
Theorem set_units_get_units w expr k s :
  tracked_as expr k → concrete s →
  get_units (set_units expr (Some s) w) expr = Some s ∧
  (∀ other k', tracked_as other k' → k' ≠ k → is_Some (cur_stree w !! k') →
     get_units (set_units expr (Some s) w) other = get_units w other).
Proof.
  intros Ht Hs. split; [by apply (set_units_get_units_eq w expr k)|].
  intros other k' Ht' Hne [s' Hs'].
  rewrite (get_units_tracked _ other k' Ht' s'), (get_units_tracked w other k' Ht' s');
    [done|done|].
  rewrite set_units_cur_stree. destruct Ht as (-> & _).
  by rewrite lookup_insert_ne.
Qed.







(** Allocation sizes.  For an allocation given as a count and an element
    size, or as a product of the two, the operand that multiplies a size in
    bytes becomes an element count: when the size is in bytes and the count
    is tracked and not itself in bytes, [get_units] of the count is
    [array_size] afterwards, and likewise with the roles exchanged; when
    neither operand is in bytes, or the allocation has neither shape,
    nothing changes. *)
Theorem match_allocation_array_size w info n e :
  (nr_elems info = Some n ∧ elem_size info = Some e) ∨
  ((nr_elems info = None ∨ elem_size info = None) ∧
   ∃ p l r, total_size info = Some (EXPR_BINOP p (OP "*") l r) ∧
            strip_expr l = Some n ∧ strip_expr r = Some e) →
  let w' := match_allocation info w in
  (∀ k, get_units w e = Some byte → get_units w n ≠ Some byte →
        tracked_as n k → get_units w' n = Some array_size) ∧
  (∀ k, get_units w n = Some byte → tracked_as e k →
        get_units w' e = Some array_size) ∧
  (get_units w n ≠ Some byte → get_units w e ≠ Some byte → w' = w).
Proof.
  intros Hshape w'.
  assert (w' =
          let w1 := if bool_decide (get_units w n = Some byte)
                    then set_units e (Some array_size) w else w in
          if bool_decide (get_units w1 e = Some byte)
          then set_units n (Some array_size) w1 else w1) as ->.
  { unfold w', match_allocation.
    destruct Hshape as [[-> ->]|[Hnone (p & l & r & -> & -> & ->)]]; [done|].
    by destruct Hnone as [-> | ->]; [|destruct (nr_elems info)]. }
  cbv zeta. split; [|split].
  - intros k He Hn Ht.
    rewrite (bool_decide_eq_false_2 _ Hn), (bool_decide_eq_true_2 _ He).
    by apply (set_units_get_units_eq w n k).
  - intros k Hn Ht. rewrite (bool_decide_eq_true_2 _ Hn).
    assert (get_units (set_units e (Some array_size) w) e = Some array_size) as He
      by (by apply (set_units_get_units_eq w e k)).
    rewrite (bool_decide_eq_false_2
               (get_units (set_units e (Some array_size) w) e = Some byte));
      [done|by rewrite He].
  - intros Hn He.
    by rewrite (bool_decide_eq_false_2 _ Hn), (bool_decide_eq_false_2 _ He).
Qed.

(** An allocation that is neither a count with an element size nor a
    product is not looked at. *)
Theorem match_allocation_other_shapes w info :
  nr_elems info = None ∨ elem_size info = None →
  (∀ p l r, total_size info ≠ Some (EXPR_BINOP p (OP "*") l r)) →
  match_allocation info w = w.
Proof.
  intros Hnone Hts. unfold match_allocation.
  assert (match nr_elems info, elem_size info with
          | Some n, Some e => Some (Some n, Some e)
          | _, _ =>
              match total_size info with
              | Some (EXPR_BINOP _ (OP "*") l r) => Some (strip_expr l, strip_expr r)
              | _ => None
              end
          end = None) as ->; [|done].
  assert (match total_size info with
          | Some (EXPR_BINOP _ (OP "*") l r) => Some (strip_expr l, strip_expr r)
          | _ => None
          end = None) as Hts'.
  { destruct (total_size info) as [[| |p op l r| | | | | | | |]|]; try done.
    destruct op as [[[] [] [] [] [] [] [] []]|]; try done.
    by destruct (Hts p l r). }
  rewrite Hts'. destruct Hnone as [-> | ->]; [done|].
  by destruct (nr_elems info).
Qed.

Lemma match_call_info_from_spec param expr args w :
  let rows := match_call_info_from param expr args w in
  (∀ r, r ∈ rows ↔
     ∃ i a s, args !! i = Some a ∧ get_units w a = Some s ∧
              r = CallerInfo expr UNITS (param + 1 + Z.of_nat i) "$" (name s)) ∧
  NoDup (ci_param <$> rows) ∧
  (∀ r, r ∈ rows → (param < ci_param r)%Z).
Proof.
  revert param. induction args as [|arg args IH]; intros param; simpl.
  { split; [|split; [constructor|]].
    - intros r. split; [by intros ?%elem_of_nil|]. by intros (i & ? & ? & ? & _).
    - by intros r ?%elem_of_nil. }
  destruct (IH (param + 1)%Z) as (Hrows & Hdup & Hlt).
  destruct (get_units w arg) as [s|] eqn:Harg.
  - split; [|split].
    + intros r. rewrite elem_of_cons, Hrows. split.
      * intros [->|(i & a & s' & Hi & Ha & ->)].
        -- exists 0, arg, s. repeat split; try done. f_equal; lia.
        -- exists (S i), a, s'. repeat split; try done. f_equal; lia.
      * intros ([|i] & a & s' & Hi & Ha & ->).
        -- left. simpl in Hi. injection Hi as <-. rewrite Harg in Ha.
           injection Ha as <-. f_equal; lia.
        -- right. exists i, a, s'. repeat split; try done. f_equal; lia.
    + simpl. constructor; [|done].
      intros (r & Hp & Hr)%list_elem_of_fmap. specialize (Hlt r Hr).
      simpl in Hp. lia.
    + intros r [->|Hr]%elem_of_cons; [simpl; lia|].
      specialize (Hlt r Hr). lia.
  - split; [|split; [done|]].
    + intros r. rewrite Hrows. split.
      * intros (i & a & s' & Hi & Ha & ->).
        exists (S i), a, s'. repeat split; try done. f_equal; lia.
      * intros ([|i] & a & s' & Hi & Ha & ->).
        -- simpl in Hi. injection Hi as <-. congruence.
        -- exists i, a, s'. repeat split; try done. f_equal; lia.
    + intros r Hr. specialize (Hlt r Hr). lia.
Qed.

(** Caller information.  For a call to a named function symbol the hook
    hands over one row per argument that has units, numbered by the
    position of the argument among all arguments (those without units are
    skipped but counted), with key ["$"] and the name of the units; for a
    call through anything but a symbol, or a symbol the host cannot name,
    it hands over nothing. *)
Theorem match_call_info_rows w p fn args :
  let rows := match_call_info (EXPR_CALL p fn args) w in
  ((∃ fn_pos sym, fn = EXPR_SYMBOL fn_pos sym) ∧ is_Some (expr_to_var fn) →
     (∀ r, r ∈ rows ↔
        ∃ i a s, args !! i = Some a ∧ get_units w a = Some s ∧
                 r = CallerInfo (EXPR_CALL p fn args) UNITS (Z.of_nat i) "$"
                       (name s)) ∧
     NoDup (ci_param <$> rows)) ∧
  ((∀ fn_pos sym, fn ≠ EXPR_SYMBOL fn_pos sym) ∨ expr_to_var fn = None →
     rows = []).
Proof.
  intros rows. split.
  - intros [(fn_pos & sym & ->) [fn_name Hname]].
    unfold rows, match_call_info. rewrite Hname.
    destruct (match_call_info_from_spec (-1)
                (EXPR_CALL p (EXPR_SYMBOL fn_pos sym) args) args w)
      as (Hrows & Hdup & _).
    split; [|done]. intros r. rewrite Hrows.
    split; intros (i & a & s & Hi & Ha & ->); exists i, a, s;
      repeat split; try done; f_equal; lia.
  - intros [Hfn|Hname]; unfold rows, match_call_info.
    + destruct fn; try done. by destruct (Hfn pos sym).
    + rewrite Hname. by destruct fn.
Qed.

(** Consuming a summary.  Each of the three consumers turns a value that
    names a unit into that unit on the variable it is given, and leaves the
    world alone for any other value (["unknown"], a name of [undefined] or
    [merged], anything unreadable) and, for [set_implied_units], when the
    host cannot resolve the key to both a name and a symbol. *)
Theorem summary_consumers w call arg nm sym key value :
  (∀ s, str_to_units (Some value) = Some s →
     set_param_units nm sym key value w
       = set_state (sym_ident sym, sym_id sym) s w ∧
     set_param_units_from_table call nm sym value w
       = set_state (nm, sym_id sym) s w ∧
     (∀ n y, get_variable_from_key arg key = (Some n, Some y) →
             set_implied_units call arg key value w = set_state (n, y) s w)) ∧
  (str_to_units (Some value) = None →
     set_param_units nm sym key value w = w ∧
     set_param_units_from_table call nm sym value w = w ∧
     set_implied_units call arg key value w = w) ∧
  ((get_variable_from_key arg key).1 = None
   ∨ (get_variable_from_key arg key).2 = None →
     set_implied_units call arg key value w = w).
Proof.
  unfold set_param_units, set_param_units_from_table, set_implied_units.
  split; [|split].
  - intros s ->. repeat split. by intros n y ->.
  - by intros ->.
  - destruct (str_to_units _); [|done].
    destruct (get_variable_from_key arg key) as [[n|] [y|]]; simpl;
      by intros [?|?].
Qed.

(** From a return to a call site.  Every row that [process_states] stores
    for an argument whose units changed reads back, in [set_implied_units],
    as the very state the argument had at the return: the variable the key
    resolves to at the call site gets that state. *)
Theorem return_summary_round_trip arguments w i arg s :
  arguments !! i = Some arg →
  changed_units w arg s →
  let r := ReturnImplies get_base_file_id get_function 0 fn_static UNITS
             (Z.of_nat i) "$" (name s) in
  r ∈ cache_return_implies (process_states arguments w) ∧
  ∀ w2 call actual n y,
    get_variable_from_key actual (ri_key r) = (Some n, Some y) →
    cur_stree (set_implied_units call actual (ri_key r) (ri_value r) w2) !! (n, y)
      = Some s.
Proof.
  intros Hi Hc r. split.
  - destruct (process_states_from_spec (-1) arguments w) as (new & Heq & Hnew & _).
    unfold process_states. rewrite Heq. simpl. apply elem_of_app. right.
    apply Hnew. exists i, arg, s.
    repeat split; try done; try apply Hc; unfold r; f_equal; lia.
  - intros w2 call actual n y Hkey. unfold set_implied_units, r in *.
    cbn [ri_key ri_value] in *.
    destruct Hc as (_ & [Hu Hm] & _).
    assert (str_to_units (Some (name s)) = Some s) as -> by (by destruct s).
    rewrite Hkey. simpl. apply lookup_insert_eq.
Qed.

(** From a call site to the callee.  Every row the call hook hands over for
    an argument of a call to a named function reads back, in
    [set_param_units], as the units of that argument: the callee's
    parameter starts with them. *)
Theorem caller_info_round_trip w p fn_pos fn_sym args i a s :
  is_Some (expr_to_var (EXPR_SYMBOL fn_pos fn_sym)) →
  args !! i = Some a →
  get_units w a = Some s →
  let expr := EXPR_CALL p (EXPR_SYMBOL fn_pos fn_sym) args in
  let r := CallerInfo expr UNITS (Z.of_nat i) "$" (name s) in
  r ∈ match_call_info expr w ∧
  ∀ w2 nm sym,
    cur_stree (set_param_units nm sym (ci_key r) (ci_value r) w2)
      !! (sym_ident sym, sym_id sym) = Some s.
Proof.
  intros [fn_name Hname] Hi Ha expr r. split.
  - unfold expr, match_call_info. rewrite Hname.
    destruct (match_call_info_from_spec (-1)
                (EXPR_CALL p (EXPR_SYMBOL fn_pos fn_sym) args) args w)
      as (Hrows & _).
    apply Hrows. exists i, a, s.
    repeat split; try done; unfold r; f_equal; lia.
  - intros w2 nm sym. unfold set_param_units, r. cbn [ci_key ci_value].
    apply get_units_concrete in Ha as [Hu Hm].
    assert (str_to_units (Some (name s)) = Some s) as -> by (by destruct s).
    simpl. apply lookup_insert_eq.
Qed.

(** *** The fact store behind [get_units_from_type] *)

Lemma db_units_all_same v l :
  (∀ x, x ∈ l → x = v) → foldl db_units (Some v) l = Some v.
Proof.
  induction l as [|x l IH]; intros Hall; [done|]. simpl.
  assert (x = v) as -> by (apply Hall; by left). unfold streq.
  rewrite bool_decide_eq_true_2 by done. apply IH.
  intros y Hy. apply Hall. by right.
Qed.

(** What the callback leaves after a run over the selected values: nothing
    for no value, the value when all agree, ["unknown"] otherwise. *)
Lemma db_units_fold l :
  (l = [] ∧ foldl db_units None l = None) ∨
  (∃ v, v ∈ l ∧ (∀ x, x ∈ l → x = v) ∧ foldl db_units None l = Some v) ∨
  (∃ v1 v2, v1 ∈ l ∧ v2 ∈ l ∧ v1 ≠ v2 ∧ foldl db_units None l = Some "unknown").
Proof.
  destruct l as [|v l]; [by left|]. right.
  destruct (decide (Forall (λ x, x = v) l)) as [Hall|Hnot].
  - left. exists v. rewrite Forall_forall in Hall. split; [by left|]. split.
    + intros x [->|Hx]%elem_of_cons; auto.
    + simpl. by apply db_units_all_same.
  - right. apply not_Forall_Exists in Hnot; [|apply _].
    apply Exists_exists in Hnot as (x & Hx & Hne).
    exists v, x. split; [by left|]. split; [by right|]. split; [done|].
    apply (db_units_widens None v x); [by left|by right|done].
Qed.

Lemma db_units_perm l l' :
  l ≡ₚ l' → foldl db_units None l = foldl db_units None l'.
Proof.
  intros Hp.
  destruct (db_units_fold l)
    as [[-> ->]|[(v & Hv & Hall & ->)|(v1 & v2 & H1 & H2 & Hne & ->)]].
  - apply Permutation_nil_l in Hp. by subst l'.
  - destruct (db_units_fold l')
      as [[-> _]|[(v' & Hv' & Hall' & ->)|(v1 & v2 & H1 & H2 & Hne & _)]].
    + apply Permutation_nil_r in Hp. subst l. by apply elem_of_nil in Hv.
    + rewrite <- Hp in Hv'. by rewrite (Hall v' Hv').
    + rewrite <- Hp in H1, H2. destruct Hne.
      by rewrite (Hall v1 H1), (Hall v2 H2).
  - rewrite Hp in H1, H2. symmetry. by apply (db_units_widens None v1 v2).
Qed.

Lemma lookup_as_one_fold w member :
  run_sql db_units
    (run_sql db_units None
       (select_value_from_type_info (cache_type_info w) UNITS member))
    (select_value_from_type_info (db_type_info w) UNITS member)
  = foldl db_units None
      (select_value_from_type_info (cache_type_info w ++ db_type_info w)
         UNITS member).
Proof.
  unfold run_sql, select_value_from_type_info.
  by rewrite filter_app, fmap_app, foldl_app.
Qed.

Lemma get_units_from_type_lookup w expr member :
  get_member_name expr = Some member →
  member ≠ "(struct vm_area_struct)->vm_pgoff" →
  get_units_from_type w expr =
    match foldl db_units None
            (select_value_from_type_info (cache_type_info w ++ db_type_info w)
               UNITS member) with
    | None => None
    | Some u => str_to_units (Some u)
    end.
Proof.
  intros Hm Hpg. unfold get_units_from_type. rewrite Hm.
  unfold streq at 1. rewrite bool_decide_eq_false_2 by done.
  rewrite lookup_as_one_fold. by destruct (foldl _ _ _).
Qed.

(** The order of the facts does not matter.  Two worlds whose [type_info]
    rows, cache and database taken together, are the same up to order give
    the same answer to every lookup: facts can be inserted in any order and
    moved from the cache to the database without changing what is read. *)
Theorem lookup_order_irrelevant w w' expr :
  cache_type_info w ++ db_type_info w ≡ₚ cache_type_info w' ++ db_type_info w' →
  get_units_from_type w expr = get_units_from_type w' expr.
Proof.
  intros Hp. unfold get_units_from_type.
  destruct (get_member_name expr) as [member|]; [|done].
  destruct (streq member _); [done|].
  rewrite !lookup_as_one_fold.
  rewrite (db_units_perm
             (select_value_from_type_info
                (cache_type_info w ++ db_type_info w) UNITS member)
             (select_value_from_type_info
                (cache_type_info w' ++ db_type_info w') UNITS member)); [done|].
  unfold select_value_from_type_info. by rewrite Hp.
Qed.

Lemma store_type_in_db_cache expr member s w :
  get_member_name expr = Some member →
  is_ignored_type (Some member) = false →
  cache_type_info (store_type_in_db expr s w)
    = cache_type_info w ++ [TypeInfo get_base_file_id UNITS member (name s)] ∧
  msgs (store_type_in_db expr s w)
    = msgs w ++
      match get_units_from_type w expr with
      | Some old =>
          if bool_decide (old ≠ s)
          then [other_places_set member (name old) (name s)] else []
      | None => []
      end.
Proof.
  intros Hm Hi. unfold store_type_in_db. rewrite Hm, Hi.
  destruct (get_units_from_type w expr) as [old|]; [case_bool_decide|];
    simpl; by rewrite ?app_nil_r.
Qed.

(** A consistent store reads back.  Take a member that is not ignored and
    is not [(struct vm_area_struct)->vm_pgoff], the one member
    [get_units_from_type] never looks up, and a unit [s] other than
    [undefined] and [merged].  When every fact already recorded for the
    member names [s], storing [s] once more prints no warning, and
    afterwards the member reads as [s] through any expression with that
    member name; the facts stay consistent, so this holds however often
    the store is repeated. *)
Theorem store_then_lookup w expr member s :
  get_member_name expr = Some member →
  is_ignored_type (Some member) = false →
  member ≠ "(struct vm_area_struct)->vm_pgoff" →
  concrete s →
  (∀ r, r ∈ cache_type_info w ++ db_type_info w →
        ti_type r = UNITS → ti_key r = member → ti_value r = name s) →
  let w' := store_type_in_db expr s w in
  msgs w' = msgs w ∧
  (∀ other, get_member_name other = Some member →
            get_units_from_type w' other = Some s) ∧
  (∀ r, r ∈ cache_type_info w' ++ db_type_info w' →
        ti_type r = UNITS → ti_key r = member → ti_value r = name s).
Proof.
  intros Hm Hi Hpg Hs Hrows w'.
  assert (str_to_units (Some (name s)) = Some s) as Hname
    by (destruct Hs; by destruct s).
  assert (∀ w0 other,
            get_member_name other = Some member →
            (∀ r, r ∈ cache_type_info w0 ++ db_type_info w0 →
                  ti_type r = UNITS → ti_key r = member → ti_value r = name s) →
            get_units_from_type w0 other = None
            ∨ get_units_from_type w0 other = Some s) as Hread.
  { intros w0 other Hother Hrows0.
    rewrite (get_units_from_type_lookup w0 other member Hother Hpg).
    destruct (db_units_fold
                (select_value_from_type_info
                   (cache_type_info w0 ++ db_type_info w0) UNITS member))
      as [[_ ->]|[(v & Hv & _ & ->)|(v1 & v2 & H1 & H2 & Hne & _)]].
    - by left.
    - right. unfold select_value_from_type_info in Hv.
      apply list_elem_of_fmap in Hv as (r & -> & [[Ht Hk] Hr]%list_elem_of_filter).
      rewrite (Hrows0 r Hr Ht Hk). exact Hname.
    - unfold select_value_from_type_info in H1, H2.
      apply list_elem_of_fmap in H1 as (r1 & -> & [[Ht1 Hk1] Hr1]%list_elem_of_filter).
      apply list_elem_of_fmap in H2 as (r2 & -> & [[Ht2 Hk2] Hr2]%list_elem_of_filter).
      destruct Hne. by rewrite (Hrows0 r1 Hr1 Ht1 Hk1), (Hrows0 r2 Hr2 Ht2 Hk2). }
  destruct (store_type_in_db_cache expr member s w Hm Hi) as (Hcache & Hmsgs).
  destruct (store_type_in_db_keeps expr s w) as (_ & Hdb & _).
  assert (∀ r, r ∈ cache_type_info w' ++ db_type_info w' →
               ti_type r = UNITS → ti_key r = member → ti_value r = name s)
    as Hrows'.
  { intros r. unfold w'. rewrite Hcache, Hdb, <- app_assoc.
    rewrite (Permutation_app_comm [_] (db_type_info w)), app_assoc.
    intros [Hr|Hr]%elem_of_app; [by apply Hrows|].
    by apply list_elem_of_singleton in Hr as ->. }
  split; [|split; [|done]].
  - unfold w'. rewrite Hmsgs.
    destruct (Hread w expr Hm Hrows) as [-> | ->]; [by rewrite app_nil_r|].
    rewrite bool_decide_eq_false_2 by (by intros ?). by rewrite app_nil_r.
  - intros other Hother.
    destruct (Hread w' other Hother Hrows') as [Hnone|Hsome]; [|done].
    exfalso. revert Hnone.
    rewrite (get_units_from_type_lookup w' other member Hother Hpg).
    destruct (db_units_fold
                (select_value_from_type_info
                   (cache_type_info w' ++ db_type_info w') UNITS member))
      as [[Hnil _]|[(v & Hv & _ & ->)|(v1 & v2 & H1 & H2 & Hne & ->)]].
    + assert (name s ∈ select_value_from_type_info
                (cache_type_info w' ++ db_type_info w') UNITS member) as Hin.
      { apply (select_value_elem _ _ _
                 (TypeInfo get_base_file_id UNITS member (name s))); try done.
        apply elem_of_app. left. unfold w'. rewrite Hcache.
        apply elem_of_app. right. by apply list_elem_of_singleton. }
      rewrite Hnil in Hin. by apply elem_of_nil in Hin.
    + unfold select_value_from_type_info in Hv.
      apply list_elem_of_fmap in Hv as (r & -> & [[Ht Hk] Hr]%list_elem_of_filter).
      rewrite (Hrows' r Hr Ht Hk). cbv iota beta. by rewrite Hname.
    + unfold select_value_from_type_info in H1, H2.
      apply list_elem_of_fmap in H1 as (r1 & -> & [[Ht1 Hk1] Hr1]%list_elem_of_filter).
      apply list_elem_of_fmap in H2 as (r2 & -> & [[Ht2 Hk2] Hr2]%list_elem_of_filter).
      destruct Hne. by rewrite (Hrows' r1 Hr1 Ht1 Hk1), (Hrows' r2 Hr2 Ht2 Hk2).
Qed.

(** Warnings of the store.  Storing the units of an expression that has no
    member name, or an ignored one, does nothing at all.  Otherwise one row
    is appended, the path environment is not touched, and the "other places
    set" warning is printed exactly when what [get_units_from_type] reads
    for the expression is a different unit.  For every member but
    [(struct vm_area_struct)->vm_pgoff], two different values on record
    resolve to no unit, so no later store warns again; [vm_pgoff] is never
    looked up and always reads as [page], so a store on it warns exactly
    when the unit stored is not [page], whatever is on record. *)
Theorem store_type_in_db_warns w expr s :
  let w' := store_type_in_db expr s w in
  (get_member_name expr = None
   ∨ is_ignored_type (get_member_name expr) = true → w' = w) ∧
  (∀ member,
     get_member_name expr = Some member →
     is_ignored_type (Some member) = false →
     cache_type_info w'
       = cache_type_info w ++ [TypeInfo get_base_file_id UNITS member (name s)] ∧
     cur_stree w' = cur_stree w ∧
     (∀ old, get_units_from_type w expr = Some old → old ≠ s →
        msgs w' = msgs w ++ [other_places_set member (name old) (name s)]) ∧
     (get_units_from_type w expr = None ∨ get_units_from_type w expr = Some s →
        msgs w' = msgs w) ∧
     (member ≠ "(struct vm_area_struct)->vm_pgoff" →
      ∀ r1 r2,
        r1 ∈ cache_type_info w ++ db_type_info w →
        r2 ∈ cache_type_info w ++ db_type_info w →
        ti_type r1 = UNITS → ti_key r1 = member →
        ti_type r2 = UNITS → ti_key r2 = member →
        ti_value r1 ≠ ti_value r2 →
        msgs w' = msgs w) ∧
     (member = "(struct vm_area_struct)->vm_pgoff" →
      msgs w'
        = msgs w ++
          if bool_decide (s = page) then []
          else [other_places_set member "page" (name s)])).
Proof.
  intros w'. split.
  - unfold w', store_type_in_db. intros [-> | Hi]; [done|].
    destruct (get_member_name expr); [by rewrite Hi|done].
  - intros member Hm Hi.
    destruct (store_type_in_db_cache expr member s w Hm Hi) as (Hcache & Hmsgs).
    destruct (store_type_in_db_keeps expr s w) as (Hstree & _).
    assert (get_units_from_type w expr = None ∨ get_units_from_type w expr = Some s →
            msgs w' = msgs w) as Hquiet.
    { unfold w'. rewrite Hmsgs. intros [-> | ->]; [by rewrite app_nil_r|].
      rewrite bool_decide_eq_false_2 by (by intros ?). by rewrite app_nil_r. }
    split; [done|]. split; [done|]. split; [|split; [done|split]].
    + intros old Hold Hne. unfold w'. rewrite Hmsgs, Hold.
      by rewrite bool_decide_eq_true_2.
    + intros Hpg r1 r2 Hr1 Hr2 Ht1 Hk1 Ht2 Hk2 Hne. apply Hquiet. left.
      rewrite (get_units_from_type_lookup w expr member Hm Hpg).
      rewrite (db_units_widens None (ti_value r1) (ti_value r2)); [done|..|done].
      * by apply select_value_elem.
      * by apply select_value_elem.
    + intros ->. unfold w'. rewrite Hmsgs.
      assert (get_units_from_type w expr = Some page) as ->.
      { unfold get_units_from_type. by rewrite Hm. }
      repeat case_bool_decide; by subst.
Qed.

(** Units that no state can change.  What [get_units] says of a call, and
    of a binary operation other than [+] and [-], does not depend on the
    path environment or on the stored facts: it is the same in every
    world, so setting units on such an expression never shows. *)
Theorem get_units_fixed_shapes w w' expr e :
  strip_expr expr = Some e →
  ident_units (pos_ident (expr_pos e)) = None →
  (∃ p fn args, e = EXPR_CALL p fn args) ∨
  (∃ p op l r, e = EXPR_BINOP p op l r ∧ op ≠ OP "+" ∧ op ≠ OP "-") →
  get_units w expr = get_units w' expr.
Proof.
  intros He Hid Hshape. rewrite !get_units_unfold. unfold get_units_body.
  rewrite He.
  destruct Hshape as [(p & fn & args & ->)|(p & op & l & r & -> & Hp & Hm)];
    simpl in *; rewrite Hid; [done|].
  unfold binop_helper.
  destruct op as [[[] [] [] [] [] [] [] []]|[]]; done.
Qed.

End hooks.
End UnitsHooksProps.

(** ** Printing and reading back the stored facts *)

Module LibcProps.
Import Libc.

Lemma digit_value_pretty_N_char d :
  (d < 10)%N → digit_value (pretty_N_char d) = Some (Z.of_N d).
Proof.
  intros Hd.
  assert (d = 0 ∨ d = 1 ∨ d = 2 ∨ d = 3 ∨ d = 4 ∨ d = 5 ∨ d = 6 ∨ d = 7
          ∨ d = 8 ∨ d = 9)%N as Hcases by lia.
  repeat (destruct Hcases as [->|Hcases]; [by vm_compute|]).
  subst d. by vm_compute.
Qed.

(** Reading the digits that [pretty] wrote gives the number back: the
    digits of [x] in front of [s] continue an accumulator [acc] to
    [acc * 10^k + x], [k] being the number of digits. *)
Lemma digits_pretty_N_go x :
  ∃ m : Z, ∀ s acc,
    digits (pretty_N_go x s) acc = digits s (acc * m + Z.of_N x).
Proof.
  induction (N.lt_wf_0 x) as [x _ IH].
  destruct (decide (x = 0%N)) as [->|Hx].
  { exists 1%Z. intros s acc. rewrite pretty_N_go_0. f_equal. lia. }
  destruct (IH (x `div` 10)%N) as [m Hm]; [apply N.div_lt; lia|].
  exists (m * 10)%Z. intros s acc.
  rewrite pretty_N_go_step by lia. rewrite Hm. simpl.
  rewrite digit_value_pretty_N_char by (apply N.mod_lt; lia).
  f_equal. pose proof (N.div_mod x 10). lia.
Qed.

Lemma pretty_N_go_app x s t : pretty_N_go x s +:+ t = pretty_N_go x (s +:+ t).
Proof.
  revert s. induction (N.lt_wf_0 x) as [x _ IH]; intros s.
  destruct (decide (x = 0%N)) as [->|Hx]; [by rewrite !pretty_N_go_0|].
  rewrite (pretty_N_go_step x s), (pretty_N_go_step x (s +:+ t)) by lia.
  rewrite IH by (apply N.div_lt; lia). reflexivity.
Qed.

(** The characters [pretty] writes for a positive number are digits, and
    there is at least one. *)
Lemma pretty_N_go_head x s :
  (0 < x)%N →
  ∃ c rest, pretty_N_go x s = String c rest ∧ is_Some (digit_value c).
Proof.
  revert s. induction (N.lt_wf_0 x) as [x _ IH]; intros s Hx.
  rewrite pretty_N_go_step by done.
  destruct (decide (x `div` 10 = 0)%N) as [->|Hq].
  - rewrite pretty_N_go_0. eexists _, _. split; [done|].
    rewrite digit_value_pretty_N_char by (apply N.mod_lt; lia). by eexists.
  - apply IH; [apply N.div_lt; lia|by apply N.neq_0_lt_0].
Qed.

Lemma strchr_pretty_N_go x s c :
  digit_value c = None →
  ParamToMtagData.strchr (pretty_N_go x s) c = ParamToMtagData.strchr s c.
Proof.
  intros Hc. revert s. induction (N.lt_wf_0 x) as [x _ IH]; intros s.
  destruct (decide (x = 0%N)) as [->|Hx]; [by rewrite pretty_N_go_0|].
  rewrite pretty_N_go_step by lia. rewrite IH by (apply N.div_lt; lia).
  simpl. rewrite bool_decide_eq_false_2; [done|].
  intros Heq. rewrite <- Heq, digit_value_pretty_N_char in Hc; [done|].
  apply N.mod_lt; lia.
Qed.

Lemma digit_not_space c : is_Some (digit_value c) → isspace c = false.
Proof.
  unfold digit_value, isspace. intros [d Hd].
  case_bool_decide as Hr; [|done].
  apply orb_false_intro; apply bool_decide_eq_false_2; lia.
Qed.

Lemma digit_not_sign c :
  is_Some (digit_value c) → c ≠ "-"%char ∧ c ≠ "+"%char.
Proof. intros [d Hd]. split; intros ->; done. Qed.

Lemma sign_and_digits_digit c rest :
  is_Some (digit_value c) →
  sign_and_digits (String c rest) = (false, digits (String c rest) 0).
Proof.
  intros Hc. unfold sign_and_digits.
  assert (skip_spaces (String c rest) = String c rest) as ->.
  { simpl. by rewrite digit_not_space. }
  destruct (digit_not_sign c Hc) as [Hm Hp].
  destruct c as [[] [] [] [] [] [] [] []]; done.
Qed.

Lemma pretty_Z_app (z : Z) t :
  pretty z +:+ t =
    match z with
    | Z0 => String "0" t
    | Zpos p => pretty_N_go (N.pos p) t
    | Zneg p => String "-" (pretty_N_go (N.pos p) t)
    end.
Proof.
  destruct z as [|p|p]; [done|..].
  - trans (pretty_N_go (N.pos p) "" +:+ t); [|apply (pretty_N_go_app _ "" t)].
    unfold pretty, pretty_Z, pretty, pretty_positive, pretty, pretty_N.
    by rewrite decide_False.
  - trans (String "-" (pretty_N_go (N.pos p) "" +:+ t));
      [|f_equal; apply (pretty_N_go_app _ "" t)].
    unfold pretty, pretty_Z, pretty, pretty_positive, pretty, pretty_N.
    by rewrite decide_False.
Qed.

(** [sign_and_digits] on what ["%lld"] or ["%d"] printed, followed by
    something that does not start with a digit. *)
Lemma sign_and_digits_pretty (z : Z) t :
  (∀ acc, digits t acc = acc) →
  sign_and_digits (pretty z +:+ t) = (bool_decide (z < 0)%Z, Z.abs z).
Proof.
  intros Ht. rewrite pretty_Z_app. destruct z as [|p|p].
  - rewrite sign_and_digits_digit by (by eexists).
    change (digits (String "0" t) 0) with (digits t 0). by rewrite Ht.
  - destruct (pretty_N_go_head (N.pos p) t) as (c & rest & Heq & Hc); [lia|].
    destruct (digits_pretty_N_go (N.pos p)) as [m Hm].
    rewrite Heq, sign_and_digits_digit, <- Heq by done.
    rewrite Hm, Ht. rewrite bool_decide_eq_false_2 by lia. f_equal; lia.
  - destruct (digits_pretty_N_go (N.pos p)) as [m Hm].
    unfold sign_and_digits. simpl.
    rewrite Hm, Ht. f_equal; lia.
Qed.

Lemma strchr_pretty_Z (z : Z) t :
  ParamToMtagData.strchr (pretty z +:+ String "+" t) "+" = Some (String "+" t).
Proof.
  rewrite pretty_Z_app. destruct z as [|p|p]; [done|..]; simpl;
    by rewrite strchr_pretty_N_go.
Qed.

End LibcProps.

(** ** More properties of the parameter-to-mtag propagation *)

Module MtagHooksProps.
Import ParamToMtagData MtagHooks LibcProps.

Lemma string_app_nil (s : string) : s +:+ "" = s.
Proof.
  induction s as [|c s IH]; [done|].
  change (String c (s +:+ "") = String c s). by rewrite IH.
Qed.

Lemma strtoul_tag_offset_str data :
  (0 ≤ tag data < 2 ^ 64)%Z →
  Libc.strtoul (tag_offset_str data) = tag data.
Proof.
  intros Htag. unfold tag_offset_str, Libc.strtoul.
  rewrite sign_and_digits_pretty by done.
  unfold Libc.to_s64.
  destruct (decide (tag data < 2 ^ 63)%Z) as [Hlow|Hhigh].
  - rewrite (Z.mod_small (tag data + 2 ^ 63)) by lia.
    rewrite (bool_decide_eq_false_2 (2 ^ 64 ≤ _)%Z) by lia.
    rewrite (bool_decide_eq_false_2 (_ < 0)%Z) by lia. lia.
  - assert ((tag data + 2 ^ 63) mod 2 ^ 64 = tag data - 2 ^ 63)%Z as ->.
    { symmetry. apply (Z.mod_unique _ _ 1); lia. }
    rewrite (bool_decide_eq_false_2 (2 ^ 64 ≤ _)%Z) by lia.
    rewrite (bool_decide_eq_true_2 (_ < 0)%Z) by lia.
    symmetry. apply (Z.mod_unique _ _ (-1)); lia.
Qed.

Lemma strchr_tag_offset_str data :
  strchr (tag_offset_str data) "+" = Some ("+" +:+ pretty (offset data)).
Proof. unfold tag_offset_str. apply strchr_pretty_Z. Qed.

Lemma atoi_after_plus data :
  (- 2 ^ 31 ≤ offset data < 2 ^ 31)%Z →
  Libc.atoi (str_tail ("+" +:+ pretty (offset data))) = offset data.
Proof.
  intros Hoff.
  change (str_tail ("+" +:+ pretty (offset data))) with (pretty (offset data)).
  rewrite <- (string_app_nil (pretty (offset data))).
  unfold Libc.atoi, Libc.strtol. rewrite sign_and_digits_pretty by done.
  unfold to_int. case_bool_decide.
  - rewrite Z.max_r, Z.min_l by lia. rewrite Z.mod_small; lia.
  - rewrite Z.max_r, Z.min_l by lia. rewrite Z.mod_small; lia.
Qed.

(** The value of a stored fact reads back.  For a tag that fits
    [unsigned long long] and an offset that fits [int], what
    ["%lld+%d"] printed is read by [strtoul] as the tag (also when the tag
    is printed as a negative number), the first ["+"] is the one between
    the two numbers, and [atoi] of what follows it is the offset. *)
Theorem tag_offset_round_trip data :
  (0 ≤ tag data < 2 ^ 64)%Z →
  (- 2 ^ 31 ≤ offset data < 2 ^ 31)%Z →
  Libc.strtoul (tag_offset_str data) = tag data ∧
  strchr (tag_offset_str data) "+" = Some ("+" +:+ pretty (offset data)) ∧
  Libc.atoi (str_tail ("+" +:+ pretty (offset data))) = offset data.
Proof.
  intros Htag Hoff. split; [|split].
  - by apply strtoul_tag_offset_str.
  - apply strchr_tag_offset_str.
  - by apply atoi_after_plus.
Qed.

Section hooks.
Context `{Host} `{MtagHost} `{AssignHost}.

Lemma print_stored_to_mtag_elem return_id return_ranges w r :
  r ∈ print_stored_to_mtag return_id return_ranges w ↔
  ∃ k nm data,
    cur_stree w !! k = Some (tag_data nm data) ∧
    r = ReturnStates return_id return_ranges MTAG_ASSIGN (param data) "$"
          (tag_offset_str data).
Proof.
  unfold print_stored_to_mtag. rewrite list_elem_of_omap. split.
  - intros ([k s] & Hks%elem_of_map_to_list & Hrow). simpl in Hrow.
    destruct s as [| |nm data]; try done. injection Hrow as <-.
    by exists k, nm, data.
  - intros (k & nm & data & Hk & ->).
    exists (k, tag_data nm data). split; [by apply elem_of_map_to_list|done].
Qed.

(** The states of a list of tracked states that carry data, each with
    its tracker, in the order of the list. *)
Lemma states_with_data (l : list (tracker * smatch_state)) :
  ∃ states : list (tracker * tag_assign_info),
    (NoDup l.*1 → NoDup states.*1) ∧
    (∀ k data, (k, data) ∈ states ↔ ∃ nm, (k, tag_data nm data) ∈ l) ∧
    ∀ (row : tag_assign_info → return_states_row),
      omap (λ sm, match state_data sm.2 with
                  | None => None
                  | Some data => Some (row data)
                  end) l
      = (λ st, row st.2) <$> states.
Proof.
  induction l as [|[k s] l (states & Hnd & Hin & Hrows)].
  { exists []. split; [done|]. split; [|done].
    intros k data. split; [by intros ?%elem_of_nil|].
    by intros (nm & ?%elem_of_nil). }
  destruct s as [| |nm data].
  - exists states. split; [|split].
    + intros [_ ?]%NoDup_cons. by apply Hnd.
    + intros k' data'. rewrite Hin. split.
      * intros (nm' & Hl). exists nm'. by right.
      * intros (nm' & Hl). exists nm'.
        apply elem_of_cons in Hl as [[=]|Hl]; done.
    + intros row. simpl. apply Hrows.
  - exists states. split; [|split].
    + intros [_ ?]%NoDup_cons. by apply Hnd.
    + intros k' data'. rewrite Hin. split.
      * intros (nm' & Hl). exists nm'. by right.
      * intros (nm' & Hl). exists nm'.
        apply elem_of_cons in Hl as [[=]|Hl]; done.
    + intros row. simpl. apply Hrows.
  - exists ((k, data) :: states). split; [|split].
    + simpl. intros [Hk Hl]%NoDup_cons. apply NoDup_cons. split; [|by apply Hnd].
      intros ([k' data'] & -> & Hst)%list_elem_of_fmap. simpl in Hk.
      apply Hin in Hst as (nm' & Hst). apply Hk.
      apply list_elem_of_fmap. by exists (k', tag_data nm' data').
    + intros k' data'. rewrite elem_of_cons, Hin. split.
      * intros [[= -> ->]|(nm' & Hl)]; [exists nm; by left|].
        exists nm'. by right.
      * intros (nm' & Hl). apply elem_of_cons in Hl as [[= -> -> ->]|Hl].
        -- by left.
        -- right. by exists nm'.
    + intros row. simpl. f_equal. apply Hrows.
Qed.

(** What is printed at a return: exactly one row per state of the current
    stree that carries tag data, with the parameter the data came from, the
    key ["$"] and the tag and offset as ["tag+offset"]; [undefined] and
    [merged] states print nothing.  The rows are the image, element by
    element, of a list that holds every tracker with tag data once, with
    its data, and nothing else: as many rows as such states, also when two
    states print the same row. *)
Theorem print_stored_to_mtag_rows return_id return_ranges w :
  ∃ states : list (tracker * tag_assign_info),
    NoDup states.*1 ∧
    (∀ k data,
       (k, data) ∈ states ↔ ∃ nm, cur_stree w !! k = Some (tag_data nm data)) ∧
    print_stored_to_mtag return_id return_ranges w
      = (λ st, ReturnStates return_id return_ranges MTAG_ASSIGN (param st.2) "$"
                 (tag_offset_str st.2)) <$> states ∧
    length (print_stored_to_mtag return_id return_ranges w) = length states ∧
    ∀ r,
      r ∈ print_stored_to_mtag return_id return_ranges w ↔
      ∃ k nm data,
        cur_stree w !! k = Some (tag_data nm data) ∧
        r = ReturnStates return_id return_ranges MTAG_ASSIGN (param data) "$"
              (tag_offset_str data).
Proof.
  destruct (states_with_data (map_to_list (cur_stree w)))
    as (states & Hnd & Hin & Hrows).
  assert (print_stored_to_mtag return_id return_ranges w
          = (λ st, ReturnStates return_id return_ranges MTAG_ASSIGN (param st.2)
                     "$" (tag_offset_str st.2)) <$> states) as Heq.
  { unfold print_stored_to_mtag.
    apply (Hrows (λ data, ReturnStates return_id return_ranges MTAG_ASSIGN
                            (param data) "$" (tag_offset_str data))). }
  exists states. split; [|split; [|split; [|split]]].
  - apply Hnd, NoDup_fst_map_to_list.
  - intros k data. rewrite Hin.
    by setoid_rewrite elem_of_map_to_list.
  - done.
  - by rewrite Heq, length_fmap.
  - intros r. rewrite Heq, list_elem_of_fmap. split.
    + intros ([k data] & -> & (nm & Hk%elem_of_map_to_list)%Hin).
      by exists k, nm, data.
    + intros (k & nm & data & Hk & ->). exists (k, data). split; [done|].
      apply Hin. exists nm. by apply elem_of_map_to_list.
Qed.

(** An assignment of a parameter into tagged memory becomes a fact.  After
    [left = right] where [right] strips to a symbol that is parameter
    [param] of the function and the host resolves the stripped [left] to a
    tag and an offset, the return prints the row for [param] with that tag
    and offset; the three tables of the checker are not written.  An
    assignment with another operator, or whose right side is not a
    parameter symbol, changes nothing. *)
Theorem match_assign_stores w p op l r :
  let w' := match_assign (EXPR_ASSIGNMENT p op l r) w in
  (∀ left_expr k pos sym tag data_name offset return_id return_ranges,
     op = OP "=" →
     strip_expr l = Some left_expr →
     strip_expr r = Some (EXPR_SYMBOL pos sym) →
     (0 ≤ get_param_num_from_sym sym)%Z →
     expr_to_mtag_name_offset (Some left_expr) = Some (tag, data_name, offset) →
     expr_to_var_sym left_expr = Some k →
     cur_stree w' !! k
       = Some (tag_data data_name
                 (TagAssignInfo tag offset (get_param_num_from_sym sym))) ∧
     ReturnStates return_id return_ranges MTAG_ASSIGN (get_param_num_from_sym sym)
       "$" (tag_offset_str (TagAssignInfo tag offset (get_param_num_from_sym sym)))
       ∈ print_stored_to_mtag return_id return_ranges w') ∧
  mtag_alias w' = mtag_alias w ∧ mtag_data w' = mtag_data w ∧
  mtag_map w' = mtag_map w ∧
  (op ≠ OP "=" ∨ (∀ pos sym, strip_expr r ≠ Some (EXPR_SYMBOL pos sym)) ∨
   (∀ pos sym, strip_expr r = Some (EXPR_SYMBOL pos sym) →
               (get_param_num_from_sym sym < 0)%Z) →
   w' = w).
Proof.
  intros w'.
  assert (∀ e s, mtag_alias (set_state_expr e s w) = mtag_alias w ∧
                 mtag_data (set_state_expr e s w) = mtag_data w ∧
                 mtag_map (set_state_expr e s w) = mtag_map w) as Hframe.
  { intros e s. unfold set_state_expr. by destruct (expr_to_var_sym e). }
  split; [|split; [|split; [|split]]].
  - intros left_expr k pos sym tg nm off return_id return_ranges
      -> Hl Hr Hnum Hmtag Hk.
    assert (w' = set_state_expr left_expr
                   (alloc_tag_data_state tg nm off (get_param_num_from_sym sym)) w)
      as Hw'.
    { unfold w', match_assign. rewrite Hl, Hr.
      rewrite bool_decide_eq_false_2 by lia. by rewrite Hmtag. }
    assert (cur_stree w' !! k
            = Some (tag_data nm (TagAssignInfo tg off (get_param_num_from_sym sym))))
      as Hstate.
    { rewrite Hw'. unfold set_state_expr. rewrite Hk. simpl.
      apply lookup_insert_eq. }
    split; [done|]. apply print_stored_to_mtag_elem. by eexists k, nm, _.
  - unfold w', match_assign.
    repeat case_match; try done; apply Hframe.
  - unfold w', match_assign.
    repeat case_match; try done; apply Hframe.
  - unfold w', match_assign.
    repeat case_match; try done; apply Hframe.
  - intros Hcase. unfold w', match_assign.
    destruct op as [[[] [] [] [] [] [] [] []]|]; try done.
    destruct Hcase as [?|[Hns|Hneg]]; [done|..].
    + destruct (strip_expr r) as [[]|]; try done. by destruct (Hns pos sym).
    + destruct (strip_expr r) as [[]|]; try done.
      by rewrite bool_decide_eq_true_2 by (by eapply Hneg).
Qed.

(** Declining quietly.  The call-site hook leaves the world alone when the
    value has no ["+"], when what is left after the assignments is not a
    call, when the call has no argument at the index, and when the argument
    is not a parameter of the caller and the host hands out no alias. *)
Theorem call_does_mtag_assign_declines w expr P key value :
  strchr value "+" = None
  ∨ (∀ call_pos fn args,
       skip_assignments (expr_size expr) expr ≠ Some (EXPR_CALL call_pos fn args))
  ∨ (∃ call_pos fn args,
       skip_assignments (expr_size expr) expr = Some (EXPR_CALL call_pos fn args) ∧
       (get_argument_from_call_expr args P = None
        ∨ ∃ arg p,
            get_argument_from_call_expr args P = Some arg ∧
            strchr value "+" = Some p ∧
            (∀ pos sym, arg = EXPR_SYMBOL pos sym →
                        (get_param_num_from_sym sym < 0)%Z) ∧
            new_mtag_alias (strtoul value) (EXPR_CALL call_pos fn args) = None)) →
  call_does_mtag_assign expr P key value w = w.
Proof.
  unfold call_does_mtag_assign.
  intros [Hplus|[Hcall|(call_pos & fn & args & Hcall & Harg)]].
  - rewrite Hplus. by repeat case_match.
  - destruct (skip_assignments _ _) as [[| | | | | | | | | |cp f a]|]; try done.
    by destruct (Hcall cp f a).
  - rewrite Hcall. destruct (strchr value "+") as [p|]; [|done].
    unfold propogate_assignment, assign_to_alias, create_mtag_alias. simpl.
    destruct Harg as [->|(arg & p' & -> & [= <-] & Hbare & ->)]; [done|].
    destruct arg; try done.
    by rewrite bool_decide_eq_true_2 by (by eapply Hbare).
Qed.

End hooks.

Section chain.
Context `{Host} `{MtagHost} `{AssignHost}.
Hypothesis strtoul_libc : ∀ s, strtoul s = Libc.strtoul s.
Hypothesis atoi_libc : ∀ s, atoi s = Libc.atoi s.

Lemma call_does_mtag_assign_parsed w expr call_pos fn args P key data :
  (0 ≤ tag data < 2 ^ 64)%Z →
  (- 2 ^ 31 ≤ offset data < 2 ^ 31)%Z →
  skip_assignments (expr_size expr) expr = Some (EXPR_CALL call_pos fn args) →
  call_does_mtag_assign expr P key (tag_offset_str data) w =
    match propogate_assignment (EXPR_CALL call_pos fn args) P (tag data)
            (offset data) w with
    | (true, w) => w
    | (false, w) =>
        assign_to_alias (EXPR_CALL call_pos fn args) P (tag data) (offset data) w
    end.
Proof.
  intros Htag Hoff Hcall.
  unfold call_does_mtag_assign.
  rewrite Hcall, strchr_tag_offset_str, strtoul_libc, atoi_libc.
  by rewrite strtoul_tag_offset_str, atoi_after_plus.
Qed.

(** The chain is carried forward.  Take a state with tag data in the
    callee: the row printed for it at the return, consumed at a call whose
    argument at the row's parameter is itself a parameter of the caller,
    leaves on that argument a state with the same tag and offset and the
    caller's parameter number; so the caller's own return prints the same
    ["tag+offset"] for its parameter, and no alias is made on the way. *)
Theorem stored_fact_chain w k nm data return_id return_ranges :
  cur_stree w !! k = Some (tag_data nm data) →
  (0 ≤ tag data < 2 ^ 64)%Z →
  (- 2 ^ 31 ≤ offset data < 2 ^ 31)%Z →
  let r := ReturnStates return_id return_ranges MTAG_ASSIGN (param data) "$"
             (tag_offset_str data) in
  r ∈ print_stored_to_mtag return_id return_ranges w ∧
  ∀ w2 expr call_pos fn args pos sym k2 id2 ranges2,
    skip_assignments (expr_size expr) expr = Some (EXPR_CALL call_pos fn args) →
    get_argument_from_call_expr args (rs_param r) = Some (EXPR_SYMBOL pos sym) →
    (0 ≤ get_param_num_from_sym sym)%Z →
    expr_to_var_sym (EXPR_SYMBOL pos sym) = Some k2 →
    let w2' := call_does_mtag_assign expr (rs_param r) (rs_key r) (rs_value r) w2 in
    cur_stree w2' !! k2
      = Some (tag_data ("$->[" +:+ pretty (offset data) +:+ "]")
                (TagAssignInfo (tag data) (offset data)
                   (get_param_num_from_sym sym))) ∧
    ReturnStates id2 ranges2 MTAG_ASSIGN (get_param_num_from_sym sym) "$"
      (tag_offset_str data) ∈ print_stored_to_mtag id2 ranges2 w2' ∧
    mtag_alias w2' = mtag_alias w2 ∧ mtag_data w2' = mtag_data w2 ∧
    mtag_map w2' = mtag_map w2.
Proof.
  intros Hk Htag Hoff r. split.
  { apply print_stored_to_mtag_elem. by exists k, nm, data. }
  intros w2 expr call_pos fn args pos sym k2 id2 ranges2 Hcall Harg Hnum Hk2 w2'.
  assert (w2' = set_state_expr (EXPR_SYMBOL pos sym)
                  (alloc_tag_data_state (tag data)
                     ("$->[" +:+ pretty (offset data) +:+ "]") (offset data)
                     (get_param_num_from_sym sym)) w2) as Hw2'.
  { unfold w2', r. cbn [rs_param rs_key rs_value].
    rewrite (call_does_mtag_assign_parsed _ _ call_pos fn args) by done.
    unfold propogate_assignment. cbn [call_args].
    unfold r in Harg. cbn [rs_param] in Harg. rewrite Harg.
    by rewrite bool_decide_eq_false_2 by lia. }
  assert (cur_stree w2' !! k2
          = Some (tag_data ("$->[" +:+ pretty (offset data) +:+ "]")
                    (TagAssignInfo (tag data) (offset data)
                       (get_param_num_from_sym sym)))) as Hstate.
  { rewrite Hw2'. unfold set_state_expr. rewrite Hk2. simpl.
    apply lookup_insert_eq. }
  split; [done|]. split.
  - apply print_stored_to_mtag_elem. by eexists k2, _, _.
  - rewrite Hw2'. unfold set_state_expr. by rewrite Hk2.
Qed.

(** The chain ends in an alias.  The same row consumed at a call whose
    argument is not a parameter of the caller, with an alias granted by the
    host, stores the mtag data of the alias at the offset the callee
    recorded and maps the argument's own tag, when it has one, to the alias
    at minus that offset. *)
Theorem stored_fact_alias w k nm data return_id return_ranges :
  cur_stree w !! k = Some (tag_data nm data) →
  (0 ≤ tag data < 2 ^ 64)%Z →
  (- 2 ^ 31 < offset data < 2 ^ 31)%Z →
  let r := ReturnStates return_id return_ranges MTAG_ASSIGN (param data) "$"
             (tag_offset_str data) in
  r ∈ print_stored_to_mtag return_id return_ranges w ∧
  ∀ w2 expr call_pos fn args arg alias,
    skip_assignments (expr_size expr) expr = Some (EXPR_CALL call_pos fn args) →
    get_argument_from_call_expr args (rs_param r) = Some arg →
    (∀ pos sym, arg = EXPR_SYMBOL pos sym → (get_param_num_from_sym sym < 0)%Z) →
    new_mtag_alias (tag data) (EXPR_CALL call_pos fn args) = Some alias →
    let w2' := call_does_mtag_assign expr (rs_param r) (rs_key r) (rs_value r) w2 in
    mtag_alias w2' = mtag_alias w2 ++ [MtagAlias (tag data) alias] ∧
    mtag_data w2'
      = mtag_data w2 ++ [MtagData alias "" (offset data) (get_absolute_rl arg)] ∧
    mtag_map w2'
      = mtag_map w2 ++
        match get_mtag arg with
        | Some arg_tag => [MtagMap arg_tag (- offset data) alias]
        | None => []
        end ∧
    cur_stree w2' = cur_stree w2.
Proof.
  intros Hk Htag Hoff r. split.
  { apply print_stored_to_mtag_elem. by exists k, nm, data. }
  intros w2 expr call_pos fn args arg alias Hcall Harg Hbare Halias w2'.
  unfold w2', r. cbn [rs_param rs_key rs_value].
  rewrite (call_does_mtag_assign_parsed _ _ call_pos fn args) by (done || lia).
  unfold r in Harg. cbn [rs_param] in Harg.
  assert (propogate_assignment (EXPR_CALL call_pos fn args) (param data)
            (tag data) (offset data) w2 = (false, w2)) as ->.
  { unfold propogate_assignment. cbn [call_args]. rewrite Harg.
    destruct arg; try done.
    by rewrite bool_decide_eq_true_2 by (by eapply Hbare). }
  unfold assign_to_alias, create_mtag_alias. cbn [call_args].
  rewrite Harg, Halias.
  assert (to_int (- offset data) = (- offset data)%Z) as Hneg.
  { unfold to_int. rewrite Z.mod_small; lia. }
  destruct (get_mtag arg); simpl; rewrite ?Hneg, ?app_nil_r; done.
Qed.

End chain.
End MtagHooksProps.

(** The two merge hooks are commutative and associative, [undefined] is
    their unit and [merged] absorbs every state; what they lack to be the
    join of a lattice is idempotence on the states in between. *)
Theorem merge_hooks_monoid :
  (∀ s1 s2 s3,
     Units.merge_units s1 s2 = Units.merge_units s2 s1 ∧
     Units.merge_units (Units.merge_units s1 s2) s3
       = Units.merge_units s1 (Units.merge_units s2 s3) ∧
     Units.merge_units Units.merged s1 = Units.merged ∧
     Units.merge_units s1 Units.merged = Units.merged) ∧
  (∀ s1 s2 s3,
     ParamToMtagData.merge_tag_info s1 s2 = ParamToMtagData.merge_tag_info s2 s1 ∧
     ParamToMtagData.merge_tag_info (ParamToMtagData.merge_tag_info s1 s2) s3
       = ParamToMtagData.merge_tag_info s1 (ParamToMtagData.merge_tag_info s2 s3) ∧
     ParamToMtagData.merge_tag_info ParamToMtagData.merged s1
       = ParamToMtagData.merged ∧
     ParamToMtagData.merge_tag_info s1 ParamToMtagData.merged
       = ParamToMtagData.merged).
Proof.
  split; intros s1 s2 s3.
  - by destruct s1, s2, s3.
  - unfold ParamToMtagData.merge_tag_info.
    destruct s1, s2, s3; repeat split; done.
Qed.

(** ** The further theorems at work on the sample host *)

Lemma sample_var_tracked x id :
  UnitsHooks.tracked_as (Sample.var x id) (x, id).
Proof. split; [done|]. by exists (Sample.var x id). Defined.

Lemma str_to_units_name_witness :
  Units.str_to_units (Some (Units.name Units.longs)) = Some Units.longs.
Proof.
  apply (proj1 UnitsHooksProps.str_to_units_name). split; discriminate.
Defined.

Lemma check_mult_witness :
  Units.match_binop_check Sample2.nbits_times_len Sample2.bits_bytes_pages =
  Units.sm_msg (Units.multiplying_bits_bytes "nbits * len")
    Sample2.bits_bytes_pages.
Proof.
  refine (proj1 (UnitsHooksProps.check_mult_warns Sample2.bits_bytes_pages
                   (Sample.at_col 0) (Sample.var "nbits" 25)
                   (Sample.var "len" 21)) _).
  left. split; reflexivity.
Defined.

Lemma match_condition_check_witness :
  Units.msgs
    (UnitsHooks.match_condition_check Sample2.len_lt_npages
       Sample2.bits_bytes_pages)
  = [Units.comparing_different_units "<expr>" "byte" "<" "page"].
Proof.
  rewrite (proj1 (UnitsHooksProps.match_condition_check_warns
                    Sample2.bits_bytes_pages Sample2.len_lt_npages)
             (Sample.at_col 0) (OP "<") (Sample.var "len" 21)
             (Sample.var "npages" 22) Units.byte Units.page);
    first [reflexivity|discriminate].
Defined.

Lemma set_units_get_units_witness :
  Units.get_units
    (Units.set_units (Sample.var "count" 26) (Some Units.array_size)
       Sample2.bits_bytes_pages)
    (Sample.var "count" 26) = Some Units.array_size.
Proof.
  refine (proj1 (UnitsHooksProps.set_units_get_units Sample2.bits_bytes_pages
                   (Sample.var "count" 26) ("count", 26) Units.array_size _ _)).
  - apply sample_var_tracked.
  - split; discriminate.
Defined.





Lemma match_allocation_witness :
  Units.get_units
    (UnitsHooks.match_allocation Sample2.count_by_sizeof Sample2.bits_bytes_pages)
    (Sample.var "count" 26) = Some Units.array_size.
Proof.
  refine (proj1 (UnitsHooksProps.match_allocation_array_size
                   Sample2.bits_bytes_pages Sample2.count_by_sizeof
                   (Sample.var "count" 26) (EXPR_SIZEOF (Sample.at_col 0)) _)
            ("count", 26) _ _ _);
    first [reflexivity|discriminate|apply sample_var_tracked|by left].
Defined.

Lemma match_allocation_other_witness :
  UnitsHooks.match_allocation Sample2.just_len Sample2.bits_bytes_pages
  = Sample2.bits_bytes_pages.
Proof.
  apply UnitsHooksProps.match_allocation_other_shapes;
    [by left|discriminate].
Defined.

Lemma match_call_info_witness :
  CallerInfo Sample2.copy_call 1 2 "$" "page"
    ∈ UnitsHooks.match_call_info Sample2.copy_call Sample2.bits_bytes_pages.
Proof.
  apply (proj1 (UnitsHooksProps.match_call_info_rows Sample2.bits_bytes_pages
                  (Sample.at_col 0) (Sample.var "copy" 31)
                  [Sample.var "len" 21; Sample.var "count" 26;
                   Sample.var "npages" 22])).
  - split; [by eexists _, _|by eexists].
  - by exists 2, (Sample.var "npages" 22), Units.page.
Defined.

Lemma summary_consumers_witness :
  UnitsHooks.set_param_units "n" (Symbol SYM_BASETYPE "n" 0) "$" "unknown"
    Sample2.bits_bytes_pages = Sample2.bits_bytes_pages.
Proof.
  refine (proj1 (proj1 (proj2 (UnitsHooksProps.summary_consumers
            Sample2.bits_bytes_pages Sample2.copy_call (Sample.var "len" 21)
            "n" (Symbol SYM_BASETYPE "n" 0) "$" "unknown")) _)).
  reflexivity.
Defined.

Lemma return_summary_witness :
  Units.cur_stree
    (UnitsHooks.set_implied_units Sample2.copy_call (Sample.var "len" 21) "$"
       "byte" Sample.empty_world) !! ("len", 21) = Some Units.byte.
Proof.
  refine (proj2 (UnitsHooksProps.return_summary_round_trip Sample.abc
                   Sample.at_return 0 (Symbol SYM_BASETYPE "a" 0) Units.byte _ _)
            Sample.empty_world Sample2.copy_call (Sample.var "len" 21) "len" 21 _).
  - reflexivity.
  - repeat split; discriminate.
  - reflexivity.
Defined.

Lemma caller_info_witness :
  CallerInfo Sample2.copy_call 1 0 "$" "byte"
    ∈ UnitsHooks.match_call_info Sample2.copy_call Sample2.bits_bytes_pages.
Proof.
  refine (proj1 (UnitsHooksProps.caller_info_round_trip Sample2.bits_bytes_pages
                   (Sample.at_col 0) (Sample.at_col 0)
                   (Symbol SYM_BASETYPE "copy" 31)
                   [Sample.var "len" 21; Sample.var "count" 26;
                    Sample.var "npages" 22]
                   0 (Sample.var "len" 21) Units.byte _ _ _));
    first [reflexivity|by eexists].
Defined.

Lemma lookup_order_witness :
  Units.get_units_from_type Sample2.byte_then_page Sample.dev_len
  = Units.get_units_from_type Sample2.page_then_byte Sample.dev_len.
Proof.
  apply UnitsHooksProps.lookup_order_irrelevant. simpl. apply Permutation_swap.
Defined.

Lemma store_then_lookup_witness :
  Units.get_units_from_type
    (Units.store_type_in_db Sample.dev_len Units.byte Sample2.only_byte)
    Sample2.other_len = Some Units.byte.
Proof.
  refine (proj1 (proj2 (UnitsHooksProps.store_then_lookup Sample2.only_byte
                          Sample.dev_len "(struct dev)->len" Units.byte
                          _ _ _ _ _)) Sample2.other_len _);
    try reflexivity; try discriminate.
  - split; discriminate.
  - intros r Hr _ _. simpl in Hr.
    by apply list_elem_of_singleton in Hr as ->.
Defined.

Lemma store_type_in_db_warns_witness :
  Units.msgs (Units.store_type_in_db Sample.dev_len Units.page Sample2.only_byte)
  = [Units.other_places_set "(struct dev)->len" "byte" "page"].
Proof.
  refine (proj1 (proj2 (proj2 (proj2
            (UnitsHooksProps.store_type_in_db_warns Sample2.only_byte
               Sample.dev_len Units.page)
            "(struct dev)->len" _ _))) Units.byte _ _);
    first [reflexivity|discriminate].
Defined.

Lemma get_units_fixed_shapes_witness :
  Units.get_units Sample2.bits_bytes_pages Sample2.copy_call
  = Units.get_units Sample.empty_world Sample2.copy_call.
Proof.
  apply (UnitsHooksProps.get_units_fixed_shapes Sample2.bits_bytes_pages
           Sample.empty_world Sample2.copy_call Sample2.copy_call);
    [reflexivity|reflexivity|].
  left. by eexists _, _, _.
Defined.

Lemma tag_offset_round_trip_witness :
  Libc.strtoul (MtagHooks.tag_offset_str Sample2.high_tag_data)
  = (2 ^ 63 + 5)%Z.
Proof.
  apply (MtagHooksProps.tag_offset_round_trip Sample2.high_tag_data);
    simpl; lia.
Defined.

Lemma match_assign_stores_witness :
  ReturnStates 1 "0-u64max" 2 2 "$" "532+8"
    ∈ MtagHooks.print_stored_to_mtag 1 "0-u64max"
        (MtagHooks.match_assign Sample2.store_param Sample.empty_mtag_world).
Proof.
  refine (proj2 (proj1 (MtagHooksProps.match_assign_stores
                          Sample.empty_mtag_world (Sample.at_col 0) (OP "=")
                          (EXPR_DEREF (Sample.at_col 0) (Sample.var "action" 32)
                             "dev_id")
                          (Sample.var "p" 2))
                   (EXPR_DEREF (Sample.at_col 0) (Sample.var "action" 32) "dev_id")
                   ("action->dev_id", 32) (Sample.at_col 0)
                   (Symbol SYM_BASETYPE "p" 2) 532%Z "dev_id" 8%Z 1%Z "0-u64max"
                   _ _ _ _ _ _));
    first [reflexivity|vm_compute; discriminate].
Defined.

Lemma call_does_mtag_assign_declines_witness :
  ParamToMtagData.call_does_mtag_assign Sample.request_irq_call 1 "$" "77"
    Sample.empty_mtag_world = Sample.empty_mtag_world.
Proof.
  apply MtagHooksProps.call_does_mtag_assign_declines. by left.
Defined.

Lemma stored_fact_chain_witness :
  ReturnStates 1 "0-u64max" 2 2 "$" "-9223372036854775803+-16"
    ∈ MtagHooks.print_stored_to_mtag 1 "0-u64max"
        Sample2.stored_world.
Proof.
  refine (proj1 (@MtagHooksProps.stored_fact_chain Sample.host
                   Sample.mtag_host Sample2.assign_host
                   (λ _, eq_refl) (λ _, eq_refl) Sample2.stored_world
                   ("action->dev_id", 32) "dev_id" Sample2.high_tag_data
                   1%Z "0-u64max" _ _ _));
    first [reflexivity|simpl; lia].
Defined.

Lemma stored_fact_alias_witness :
  ParamToMtagData.mtag_map
    (ParamToMtagData.call_does_mtag_assign (H0 := Sample.mtag_host)
       Sample2.register_local 2 "$" "-9223372036854775803+-16"
       (ParamToMtagData.World ∅ [] [] []))
  = [ParamToMtagData.MtagMap 1040%Z 16%Z (2 ^ 63 + 6)%Z].
Proof.
  refine (proj1 (proj2 (proj2 (proj2
            (@MtagHooksProps.stored_fact_alias Sample.host
               Sample.mtag_host Sample2.assign_host
               (λ _, eq_refl) (λ _, eq_refl) Sample2.stored_world
               ("action->dev_id", 32) "dev_id" Sample2.high_tag_data
               1%Z "0-u64max" _ _ _)
            (ParamToMtagData.World ∅ [] [] [])
            Sample2.register_local (Sample.at_col 0) (Sample.var "register" 33)
            [Sample.var "a" 0; Sample.var "b" 1;
             EXPR_PREOP (Sample.at_col 0) (OP "&") (Sample.var "x" 40)]
            (EXPR_PREOP (Sample.at_col 0) (OP "&") (Sample.var "x" 40))
            (2 ^ 63 + 6)%Z _ _ _ _))));
    first [reflexivity|discriminate|simpl; lia].
Defined.
